(** * Cherry waitlist: signup, subscriber count and referral statistics

    A shallow embedding of the three route handlers of the waitlist service

      - [src/app/api/waitlist/route.ts]            (POST, signup)
      - [src/app/api/waitlist/count/route.ts]      (GET, subscriber count)
      - the referral statistics route             (GET, [?code=...])

    together with the [Subscriber] table of [prisma/schema.prisma], the
    schemas of the forms that call the routes, and the seeding script
    [init-db.ts].

    Strings are sequences of 8-bit code units ([string] of the standard
    library).  The table is the list of its rows in insertion order.  The
    handlers run in a small monad that threads the table, records every
    query sent to it, and lets a query throw.  What a request draws from its
    environment (the text of [Math.random().toString(36)], the [uuid()] and
    the [now()] of the inserted row) is an explicit argument. *)

From Stdlib Require Import String Ascii List ZArith Lia Bool.
From stdpp Require Import base strings gmap.
Import ListNotations.
Open Scope string_scope.

(** ** JavaScript string primitives used by the handlers *)

Module Js.

(** [s.substring(a, b)]: the code units from index [min a b] up to, not
    including, index [max a b], both clamped to the length of [s]. *)
Definition substring (a b : nat) (s : string) : string :=
  String.substring (Nat.min a b) (Nat.max a b - Nat.min a b) s.

Definition is_lower (c : ascii) : bool :=
  (97 <=? nat_of_ascii c)%nat && (nat_of_ascii c <=? 122)%nat.

Definition is_upper (c : ascii) : bool :=
  (65 <=? nat_of_ascii c)%nat && (nat_of_ascii c <=? 90)%nat.

Definition is_digit (c : ascii) : bool :=
  (48 <=? nat_of_ascii c)%nat && (nat_of_ascii c <=? 57)%nat.

Definition upper_char (c : ascii) : ascii :=
  if is_lower c then ascii_of_nat (nat_of_ascii c - 32) else c.

(** [s.toUpperCase()] on the letters a-z; every other code unit that the
    handlers ever pass to it (digits and the dot) is left as it is. *)
Fixpoint toUpperCase (s : string) : string :=
  match s with
  | EmptyString => EmptyString
  | String c s' => String (upper_char c) (toUpperCase s')
  end.

(** ['*'.repeat(n)] *)
Definition stars (n : nat) : list ascii := repeat "*"%char n.

(** Truthiness of a [string | undefined]: [undefined] and the empty string
    are falsy. *)
Definition truthy (o : option string) : bool :=
  match o with
  | None => false
  | Some s => negb (String.eqb s "")
  end.

(** A [string | undefined] (or [string | null]) where control flow has
    narrowed it to a string: inside [if (x)], or after the schema has
    taken it. *)
Definition narrowed (o : option string) : string :=
  match o with
  | Some s => s
  | None => ""
  end.

End Js.

(** ** The regular expression of the masking step

    The pattern has three parts: a first group of exactly two [.], a second
    group that is a greedy star over [.], and a lookahead for [@] that
    consumes nothing. *)

Module Regex.

(** [.] matches any code unit except a line terminator. *)
Definition dot (c : ascii) : bool :=
  negb (Ascii.eqb c "010"%char || Ascii.eqb c "013"%char).

Definition is_at (c : ascii) : bool := Ascii.eqb c "@"%char.

(** The second group and the lookahead, from the head of [s]: the star is
    greedy, so it first takes the next code unit when [.] matches it and
    only gives it back
    (backtracks) when the rest cannot be matched; where it stops the
    lookahead wants an [@].  The result is the text captured by the star
    and what follows it. *)
Fixpoint star_then_at (s : list ascii) : option (list ascii * list ascii) :=
  match s with
  | [] => None
  | c :: s' =>
      match (if dot c then star_then_at s' else None) with
      | Some (rest, after) => Some (c :: rest, after)
      | None => if is_at c then Some ([], s) else None
      end
  end.

(** One attempt at the head of [s]: the two captures and what follows. *)
Definition match_here (s : list ascii)
  : option (list ascii * list ascii * list ascii) :=
  match s with
  | c1 :: c2 :: s' =>
      if dot c1 && dot c2 then
        match star_then_at s' with
        | Some (rest, after) => Some ([c1; c2], rest, after)
        | None => None
        end
      else None
  | _ => None
  end.

(** [s.replace(re, f)] for this expression (no [g] flag): the leftmost
    match is replaced by [f start rest], the text around it is kept, and
    a string without a match is returned as it is. *)
Fixpoint replace_first (f : list ascii -> list ascii -> list ascii)
    (s : list ascii) : list ascii :=
  match match_here s with
  | Some (start, rest, after) => f start rest ++ after
  | None =>
      match s with
      | [] => []
      | c :: s' => c :: replace_first f s'
      end
  end.

End Regex.

(** The replacer of the referral route:
    [(_, start, rest) => start + '*'.repeat(rest.length)]. *)
Definition mask_replacer (start rest : list ascii) : list ascii :=
  start ++ Js.stars (length rest).

(** [ref.email.replace(re, replacer)] with the pattern above. *)
Definition mask_email (email : string) : string :=
  string_of_list_ascii
    (Regex.replace_first mask_replacer (list_ascii_of_string email)).


(** ** The Subscriber table ([prisma/schema.prisma]) *)

Record Subscriber := {
  id : string;                    (* @id @default(uuid()) *)
  email : string;                 (* @unique *)
  name : option string;
  createdAt : Z;                  (* @default(now()) *)
  updatedAt : Z;                  (* @updatedAt *)
  referralCode : option string;   (* String? @unique *)
  referredBy : option string;     (* references id *)
  verified : bool                 (* @default(false) *)
}.

(** The queries a handler sends to the table, in the order it sends them. *)
Inductive query :=
| FindUniqueByEmail (e : string)
| FindUniqueByReferralCode (c : string)
| CreateSubscriber (e : string)
| CountSubscribers.

Record db := { rows : list Subscriber; queries : list query }.

(** What one request draws from its environment. *)
Record env := {
  random_text : string;   (* Math.random().toString(36) *)
  uuid : string;          (* the uuid() of the inserted row *)
  now : Z                 (* the now() of the inserted row *)
}.

Definition opt_string_eqb (a b : option string) : bool :=
  match a, b with
  | Some x, Some y => String.eqb x y
  | None, None => true
  | _, _ => false
  end.

(** A computation over the table: [None] is a thrown exception. *)
Definition Prisma (A : Type) : Type := db -> option A * db.

Definition ret {A} (a : A) : Prisma A := fun d => (Some a, d).

Definition bind {A B} (m : Prisma A) (k : A -> Prisma B) : Prisma B :=
  fun d =>
    match m d with
    | (Some a, d') => k a d'
    | (None, d') => (None, d')
    end.

Notation "x <- m ;; k" := (bind m (fun x => k))
  (at level 100, m at next level, right associativity, only parsing).

Definition throw {A} : Prisma A := fun d => (None, d).

Definition sent (q : query) (d : db) : db :=
  {| rows := rows d; queries := queries d ++ [q] |}.

(** [try { ... } catch (error) { return handler }] *)
Definition try_catch {A} (body : Prisma A) (handler : A) : db -> A * db :=
  fun d =>
    match body d with
    | (Some a, d') => (a, d')
    | (None, d') => (handler, d')
    end.

(** What the database takes as a text value: PostgreSQL has no text with a
    NUL character in it, and refuses the query that carries one, a lookup
    as much as an insert. *)
Module Postgres.

Definition text (s : string) : bool :=
  negb (existsb (Ascii.eqb "000"%char) (list_ascii_of_string s)).

Definition optional_text (o : option string) : bool :=
  match o with
  | Some s => text s
  | None => true
  end.

(** The text columns that a request fills in a row; the store writes the
    [id] and the dates itself. *)
Definition row (r : Subscriber) : bool :=
  text (email r) && optional_text (name r) && optional_text (referralCode r).

(** A table the store can hold. *)
Definition table (t : list Subscriber) : Prop :=
  forall r, In r t -> row r = true.

End Postgres.

Module prisma.

Definition has_email (e : string) (r : Subscriber) : bool :=
  String.eqb (email r) e.

Definition has_referralCode (c : string) (r : Subscriber) : bool :=
  opt_string_eqb (referralCode r) (Some c).

Definition has_id (i : string) (r : Subscriber) : bool :=
  String.eqb (id r) i.

Definition referred_by (i : string) (r : Subscriber) : bool :=
  opt_string_eqb (referredBy r) (Some i).

(** [findUnique({ where: { email } })]: an email reaches the store only
    after the format check of the schema. *)
Definition findUnique_email (e : string) : Prisma (option Subscriber) :=
  fun d => (Some (find (has_email e) (rows d)), sent (FindUniqueByEmail e) d).

(** [findUnique({ where: { referralCode } })]: the query is sent, and the
    row that holds the code is its result.  When no row holds the code,
    the result is null for a code that the store takes as a text value,
    and the query throws for a code that the store refuses.  A table that
    the store can hold has no row with such a code, so that on it the
    lookup of a refused code throws whatever the rows are. *)
Definition findUnique_referralCode (c : string)
  : Prisma (option Subscriber) :=
  fun d =>
    (match find (has_referralCode c) (rows d) with
     | Some s => Some (Some s)
     | None => if Postgres.text c then Some None else None
     end,
     sent (FindUniqueByReferralCode c) d).

(** The [referrals] relation of a row: the rows whose [referredBy] is its
    [id], in table order. *)
Definition referrals_of (s : Subscriber) (t : list Subscriber)
  : list Subscriber :=
  List.filter (referred_by (id s)) t.

(** [findUnique({ where: { referralCode }, include: { referrals } })]:
    as above, with the referred rows of the row found. *)
Definition findUnique_referralCode_include (c : string)
  : Prisma (option (Subscriber * list Subscriber)) :=
  fun d =>
    (match find (has_referralCode c) (rows d) with
     | Some s => Some (Some (s, referrals_of s (rows d)))
     | None => if Postgres.text c then Some None else None
     end,
     sent (FindUniqueByReferralCode c) d).

(** What an insert of a row needs: the constraints of the schema (primary
    key, [@unique] on [email] and on a non-null [referralCode], the foreign
    key of [referredBy]) and text values that the store takes. *)
Definition accepts (t : list Subscriber) (r : Subscriber) : bool :=
  negb (existsb (has_id (id r)) t)
  && negb (existsb (has_email (email r)) t)
  && match referralCode r with
     | Some c => negb (existsb (has_referralCode c) t)
     | None => true
     end
  && match referredBy r with
     | Some i => existsb (has_id i) t
     | None => true
     end
  && Postgres.row r.

(** [create({ data: { email, name, referralCode, referredBy } })]: the
    other columns take their defaults; a violated constraint or a refused
    text value throws and leaves the table as it was.  What else can make
    the store refuse an insert (a value too long for its index, a lost
    connection) is not decided here: it throws in the same way, and the
    statements on inserted rows are made of the signups that succeed. *)
Definition create (e : env) (em : string) (nm : option string)
    (code : string) (referrer : option string) : Prisma Subscriber :=
  fun d =>
    let r := {| id := uuid e; email := em; name := nm;
                createdAt := now e; updatedAt := now e;
                referralCode := Some code; referredBy := referrer;
                verified := false |} in
    if accepts (rows d) r then
      (Some r, {| rows := rows d ++ [r];
                  queries := queries d ++ [CreateSubscriber em] |})
    else (None, sent (CreateSubscriber em) d).

(** [count()] *)
Definition count : Prisma nat :=
  fun d => (Some (length (rows d)), sent CountSubscribers d).

End prisma.

(** ** Requests and responses *)

(** A JSON value as the schemas see it: a string, or something that is not
    a string. *)
Inductive jsval :=
| VNull
| VBool (b : bool)
| VNum (n : Z)
| VStr (s : string)
| VCompound.

(** What [await request.json()] yields: it throws on a body that is not
    JSON, and otherwise gives an object or some other JSON value. *)
Inductive json_body :=
| BadJson
| NotAnObject
| JObject (fields : gmap string jsval).

(** The issues of a failed [safeParse], by kind; the one message the source
    spells out is carried as text. *)
Inductive issue :=
| Required
| ExpectedString
| TooSmall (minimum : nat)
| TooBig (maximum : nat)
| Message (text : string).

Inductive SafeParse (A : Type) :=
| ParseSuccess (data : A)
| ParseFailure (fieldErrors : list (string * list issue)).
Arguments ParseSuccess {A} data.
Arguments ParseFailure {A} fieldErrors.

Record ReferralEntry := { date : Z; entry_email : string }.

Inductive Payload :=
| NoPayload
| Errors (fieldErrors : list (string * list issue))
| ReferralCode (code : option string)
| Count (count : nat)
| Stats (totalReferrals : nat) (referrals : list ReferralEntry).

(** [NextResponse.json({ success, message, ... }, { status })] *)
Record response := {
  status : nat;
  success : bool;
  message : option string;
  payload : Payload
}.

(** ** Signup: [src/app/api/waitlist/route.ts] *)

Module WaitlistRoute.

Record WaitlistData := {
  data_email : string;
  data_name : option string;
  data_referralCode : option string
}.

Section Schema.

(** The format check of [z.string().email(...)], a function of the
    validation library. *)
Variable isEmail : string -> bool.

(** [z.string().email({ message })] *)
Definition email_field (v : option jsval) : string + list issue :=
  match v with
  | None => inr [Required]
  | Some (VStr s) =>
      if isEmail s then inl s
      else inr [Message "Please enter a valid email address"]
  | Some _ => inr [ExpectedString]
  end.

(** [z.string().optional()] *)
Definition optional_string_field (v : option jsval)
  : option string + list issue :=
  match v with
  | None => inl None
  | Some (VStr s) => inl (Some s)
  | Some _ => inr [ExpectedString]
  end.

Definition field_errors {A} (key : string) (r : A + list issue)
  : list (string * list issue) :=
  match r with
  | inl _ => []
  | inr issues => [(key, issues)]
  end.

(** [waitlistSchema.safeParse(body)] with
    [waitlistSchema = z.object({ email, name, referralCode })]; the
    second component of a failure is [error.flatten().fieldErrors]. *)
Definition waitlistSchema (fields : gmap string jsval)
  : SafeParse WaitlistData :=
  let e := email_field (fields !! "email") in
  let n := optional_string_field (fields !! "name") in
  let c := optional_string_field (fields !! "referralCode") in
  match e, n, c with
  | inl e', inl n', inl c' =>
      ParseSuccess {| data_email := e'; data_name := n';
                      data_referralCode := c' |}
  | _, _, _ =>
      ParseFailure (field_errors "email" e ++ field_errors "name" n
                    ++ field_errors "referralCode" c)%list
  end.

Definition safeParse (body : json_body) : SafeParse WaitlistData :=
  match body with
  | JObject fields => waitlistSchema fields
  | _ => ParseFailure []
  end.

(** [Math.random().toString(36).substring(2, 10).toUpperCase()] *)
Definition generateUniqueCode (e : env) : string :=
  Js.toUpperCase (Js.substring 2 10 (random_text e)).

Definition validation_failed (errs : list (string * list issue))
  : response :=
  {| status := 400; success := false;
     message := Some "Validation failed"; payload := Errors errs |}.

Definition duplicate_email : response :=
  {| status := 400; success := false;
     message := Some "This email is already on the waitlist";
     payload := NoPayload |}.

Definition invalid_referral_code : response :=
  {| status := 400; success := false;
     message := Some "Invalid referral code"; payload := NoPayload |}.

Definition joined (code : option string) : response :=
  {| status := 200; success := true;
     message := Some "Thank you for joining our waitlist! We'll notify you when we launch.";
     payload := ReferralCode code |}.

Definition server_error : response :=
  {| status := 500; success := false;
     message := Some "An error occurred while processing your request";
     payload := NoPayload |}.

Definition request_json (body : json_body) : Prisma json_body :=
  match body with
  | BadJson => throw
  | _ => ret body
  end.

(** The tail of the handler, from the generation of the code on. *)
Definition insert (e : env) (data : WaitlistData)
    (referrerId : option string) : Prisma response :=
  let newReferralCode := generateUniqueCode e in
  subscriber <- prisma.create e (data_email data) (data_name data)
                  newReferralCode referrerId ;;
  ret (joined (referralCode subscriber)).

Definition POST (e : env) (request : json_body) : db -> response * db :=
  try_catch
    (body <- request_json request ;;
     match safeParse body with
     | ParseFailure errs => ret (validation_failed errs)
     | ParseSuccess data =>
         existingSubscriber <- prisma.findUnique_email (data_email data) ;;
         match existingSubscriber with
         | Some _ => ret duplicate_email
         | None =>
             if Js.truthy (data_referralCode data) then
               referrer <- prisma.findUnique_referralCode
                             (Js.narrowed (data_referralCode data)) ;;
               match referrer with
               | None => ret invalid_referral_code
               | Some r => insert e data (Some (id r))
               end
             else insert e data None
         end
     end)
    server_error.

End Schema.

End WaitlistRoute.

(** ** Count: [src/app/api/waitlist/count/route.ts] *)

Module CountRoute.

Definition GET : db -> response * db :=
  try_catch
    (count <- prisma.count ;;
     ret {| status := 200; success := true; message := None;
            payload := Count count |})
    {| status := 500; success := false;
       message := Some "Failed to fetch waitlist count";
       payload := NoPayload |}.

End CountRoute.

(** ** Referral statistics: the route behind [/api/waitlist/referrals] *)

Module ReferralsRoute.

(** [referralQuerySchema.safeParse({ code })] with
    [code: z.string().min(3).max(20)]; [searchParams.get] gives [null]
    for a missing parameter. *)
Definition referralQuerySchema (code : option string) : SafeParse string :=
  match code with
  | None => ParseFailure [("code", [ExpectedString])]
  | Some s =>
      let small := if (String.length s <? 3)%nat then [TooSmall 3] else [] in
      let big := if (20 <? String.length s)%nat then [TooBig 20] else [] in
      match (small ++ big)%list with
      | [] => ParseSuccess s
      | issues => ParseFailure [("code", issues)]
      end
  end.

Definition invalid_format : response :=
  {| status := 400; success := false;
     message := Some "Invalid referral code format"; payload := NoPayload |}.

Definition not_found : response :=
  {| status := 404; success := false;
     message := Some "Referral code not found"; payload := NoPayload |}.

Definition server_error : response :=
  {| status := 500; success := false;
     message := Some "An error occurred while processing your request";
     payload := NoPayload |}.

Definition entry (ref : Subscriber) : ReferralEntry :=
  {| date := createdAt ref; entry_email := mask_email (email ref) |}.

Definition stats (referrals : list Subscriber) : response :=
  {| status := 200; success := true; message := None;
     payload := Stats (length referrals) (map entry referrals) |}.

Definition GET (code : option string) : db -> response * db :=
  try_catch
    (match referralQuerySchema code with
     | ParseFailure _ => ret invalid_format
     | ParseSuccess _ =>
         subscriber <- prisma.findUnique_referralCode_include
                         (Js.narrowed code) ;;
         match subscriber with
         | None => ret not_found
         | Some (_, referrals) => ret (stats referrals)
         end
     end)
    server_error.

End ReferralsRoute.

(** ** Notions used in the statements *)

(** The table constraint behind [@unique] on [referralCode]: two rows with
    the same non-null code are the same row. *)
Definition codes_unique (t : list Subscriber) : Prop :=
  forall r1 r2 c,
    In r1 t -> In r2 t ->
    referralCode r1 = Some c -> referralCode r2 = Some c -> r1 = r2.

(** The value of a string of base-36 digits read as a fraction is
    [radix36 ds / 36 ^ length ds]. *)
Definition digit36 (c : ascii) : Z :=
  if Js.is_digit c then (Z.of_nat (nat_of_ascii c) - 48)%Z
  else (Z.of_nat (nat_of_ascii c) - 87)%Z.

Definition radix36 (ds : string) : Z :=
  fold_left (fun acc c => (36 * acc + digit36 c)%Z)
    (list_ascii_of_string ds) 0%Z.

(** The shape of [x.toString(36)] for [0 <= x < 1]: the text [0], or [0.]
    followed by digits among 0-9 and a-z. *)
Definition is_digit36 (c : ascii) : bool := Js.is_digit c || Js.is_lower c.

Definition fraction_digits (s : string) : option (list ascii) :=
  match list_ascii_of_string s with
  | ["0"%char] => Some []
  | "0"%char :: "."%char :: ds =>
      if forallb is_digit36 ds then Some ds else None
  | _ => None
  end.

(** The generated-code format of the specification: upper-case letters and
    digits. *)
Definition is_upper_alnum (s : string) : bool :=
  forallb (fun c => Js.is_digit c || Js.is_upper c) (list_ascii_of_string s).

(** Surrounding whitespace in the sense of the specification's
    "after trimming": blanks, tabs and line breaks at both ends. *)
Definition is_space (c : ascii) : bool :=
  let n := nat_of_ascii c in
  (n =? 32)%nat || ((9 <=? n)%nat && (n <=? 13)%nat).

Fixpoint drop_spaces (s : list ascii) : list ascii :=
  match s with
  | c :: s' => if is_space c then drop_spaces s' else s
  | [] => []
  end.

Definition spec_trim (s : string) : string :=
  string_of_list_ascii
    (rev (drop_spaces (rev (drop_spaces (list_ascii_of_string s))))).

(** The codes the referral route takes past its schema. *)
Definition well_shaped (code : option string) : Prop :=
  match code with
  | Some s => (3 <= String.length s <= 20)%nat
  | None => False
  end.

(** The masking in the words of the specification: the first two
    characters of the local part, one star for each remaining character of
    it, and the domain as it is. *)
Definition spec_mask (local domain : string) : string :=
  String.substring 0 2 local
  ++ string_of_list_ascii (Js.stars (String.length local - 2))
  ++ "@" ++ domain.

(** A local part as the masking expects it: no [@] and no line break. *)
Definition plain (s : string) : Prop :=
  forallb (fun c => Regex.dot c && negb (Regex.is_at c))
    (list_ascii_of_string s) = true.

Definition no_at (s : string) : Prop :=
  existsb Regex.is_at (list_ascii_of_string s) = false.

(** The row that signup inserts for the parsed [data], the resolved
    referrer and the draws of the request. *)
Definition new_row (e : env) (data : WaitlistRoute.WaitlistData)
    (referrerId : option string) : Subscriber :=
  {| id := uuid e; email := WaitlistRoute.data_email data;
     name := WaitlistRoute.data_name data;
     createdAt := now e; updatedAt := now e;
     referralCode := Some (WaitlistRoute.generateUniqueCode e);
     referredBy := referrerId; verified := false |}.

(** A field of the body that is a string or is not there. *)
Definition string_or_absent (v : option jsval) : Prop :=
  v = None \/ exists s, v = Some (VStr s).

(** An email that some row of the table already has, and a referral code
    that some row of the table holds. *)
Definition on_waitlist (t : list Subscriber) (em : string) : Prop :=
  exists r, In r t /\ email r = em.

Definition code_known (t : list Subscriber) (c : string) : Prop :=
  exists r, In r t /\ referralCode r = Some c.

(** ** Sample data for the worked examples *)

Module Sample.

(** A stand-in for the library's format check, used only to run the
    handlers on concrete requests: one [@], something before it, a dot
    after it, and no blanks. *)
Definition plausible_email (s : string) : bool :=
  let cs := list_ascii_of_string s in
  match Regex.star_then_at cs with
  | Some (local, _ :: domain) =>
      negb (Nat.eqb (length local) 0)
      && negb (existsb Regex.is_at local)
      && negb (existsb Regex.is_at domain)
      && existsb (Ascii.eqb "."%char) domain
      && negb (existsb is_space cs)
  | _ => false
  end.

Definition request (em : string) (nm code : option string) : json_body :=
  JObject
    (let with_name :=
       match nm with
       | Some n => <["name" := VStr n]> ∅
       | None => ∅
       end in
     let with_code :=
       match code with
       | Some c => <["referralCode" := VStr c]> with_name
       | None => with_name
       end in
     <["email" := VStr em]> with_code).

Definition empty : db := {| rows := []; queries := [] |}.

(** The first two rows of the seeding script. *)
Definition user1 : Subscriber :=
  {| id := "id-user1"; email := "user1@example.com";
     name := Some "John Doe"; createdAt := 1; updatedAt := 1;
     referralCode := Some "USER1CODE"; referredBy := None;
     verified := true |}.

Definition referred1 : Subscriber :=
  {| id := "id-referred1"; email := "referred1@example.com";
     name := Some "Alex Johnson"; createdAt := 2; updatedAt := 2;
     referralCode := Some "REFERRED1"; referredBy := Some "id-user1";
     verified := true |}.

Definition seeded : db := {| rows := [user1; referred1]; queries := [] |}.

Definition draw (text i : string) (t : Z) : env :=
  {| random_text := text; uuid := i; now := t |}.

Definition signup : env -> json_body -> db -> response * db :=
  WaitlistRoute.POST plausible_email.

Definition parsed (em : string) (nm code : option string)
  : WaitlistRoute.WaitlistData :=
  {| WaitlistRoute.data_email := em; WaitlistRoute.data_name := nm;
     WaitlistRoute.data_referralCode := code |}.

(** The table after a first signup whose draw reads 0.k3j9x2m7qa4. *)
Definition after_ann : db :=
  snd (signup (draw "0.k3j9x2m7qa4" "id-ann" 10)
         (request "ann@example.com" (Some "Ann") None) empty).

(** The table after a first signup whose draw is one half, which reads
    0.i in base 36. *)
Definition after_half : db :=
  snd (signup (draw "0.i" "id-ann" 10)
         (request "ann@example.com" (Some "Ann") None) empty).

Definition twenty_two : string := " ABCDEFGHIJKLMNOPQRST ".

(** A table in which user1 has referred the two subscribers whose emails
    the specification gives as the examples of the masking. *)
Definition john : Subscriber :=
  {| id := "id-john"; email := "johnsmith@example.com";
     name := Some "John Smith"; createdAt := 3; updatedAt := 3;
     referralCode := Some "JOHNCODE1"; referredBy := Some "id-user1";
     verified := false |}.

Definition ab : Subscriber :=
  {| id := "id-ab"; email := "ab@example.com";
     name := None; createdAt := 4; updatedAt := 4;
     referralCode := Some "ABCODE123"; referredBy := Some "id-user1";
     verified := false |}.

Definition referring : db := {| rows := [user1; john; ab]; queries := [] |}.

(** Five characters, the third of which is the NUL character. *)
Definition nul_code : string := "AB" ++ String "000" "CD".

(** A name with the NUL character in it. *)
Definition nul_name : string := "Bo" ++ String "000" "b".

End Sample.


(** ** The shared form schema: [src/lib/validations/waitlist.ts] *)

Module Validations.

Section Schema.

Variable isEmail : string -> bool.

(** One check of a string schema: its message when the check fails. *)
Definition check (passes : bool) (text : string) : list issue :=
  if passes then [] else [Message text].

(** [z.string({ required_error }).email(...).min(5, ...).max(100, ...)]:
    every check of a string is run and every failure is reported. *)
Definition email_field (v : option jsval) : string + list issue :=
  match v with
  | None => inr [Message "Email is required"]
  | Some (VStr s) =>
      match (check (isEmail s) "Please enter a valid email address"
             ++ check (5 <=? String.length s)%nat
                  "Email must be at least 5 characters"
             ++ check (String.length s <=? 100)%nat
                  "Email must be less than 100 characters")%list with
      | [] => inl s
      | issues => inr issues
      end
  | Some _ => inr [ExpectedString]
  end.

(** [z.string({ required_error }).min(1, ...).max(100, ...).optional()] *)
Definition name_field (v : option jsval) : option string + list issue :=
  match v with
  | None => inl None
  | Some (VStr s) =>
      match (check (1 <=? String.length s)%nat "Name is required"
             ++ check (String.length s <=? 100)%nat
                  "Name must be less than 100 characters")%list with
      | [] => inl (Some s)
      | issues => inr issues
      end
  | Some _ => inr [ExpectedString]
  end.

(** [WaitlistSchema.safeParse(values)]; [WaitlistFormData], the type
    inferred from the schema, has the fields of the data of the route. *)
Definition WaitlistSchema (fields : gmap string jsval)
  : SafeParse WaitlistRoute.WaitlistData :=
  let e := email_field (fields !! "email") in
  let n := name_field (fields !! "name") in
  let c := WaitlistRoute.optional_string_field (fields !! "referralCode") in
  match e, n, c with
  | inl e', inl n', inl c' =>
      ParseSuccess {| WaitlistRoute.data_email := e';
                      WaitlistRoute.data_name := n';
                      WaitlistRoute.data_referralCode := c' |}
  | _, _, _ =>
      ParseFailure (WaitlistRoute.field_errors "email" e
                    ++ WaitlistRoute.field_errors "name" n
                    ++ WaitlistRoute.field_errors "referralCode" c)%list
  end.

End Schema.

End Validations.

(** ** The schema of the second form: [src/components/WaitlistForm.tsx] *)

Module WaitlistFormTsx.

Record WaitlistFormData := { form_name : string; form_email : string }.

Section Schema.

Variable isEmail : string -> bool.

(** [z.string().min(1, { message: "Name is required" })] *)
Definition name_field (v : option jsval) : string + list issue :=
  match v with
  | None => inr [Required]
  | Some (VStr s) =>
      if (1 <=? String.length s)%nat then inl s
      else inr [Message "Name is required"]
  | Some _ => inr [ExpectedString]
  end.

(** [waitlistSchema = z.object({ name, email })] of this form. *)
Definition waitlistSchema (fields : gmap string jsval)
  : SafeParse WaitlistFormData :=
  let n := name_field (fields !! "name") in
  let e := WaitlistRoute.email_field isEmail (fields !! "email") in
  match n, e with
  | inl n', inl e' => ParseSuccess {| form_name := n'; form_email := e' |}
  | _, _ =>
      ParseFailure (WaitlistRoute.field_errors "name" n
                    ++ WaitlistRoute.field_errors "email" e)%list
  end.

End Schema.

(** The body of the request of [onSubmit]: [JSON.stringify(data)]. *)
Definition body (data : WaitlistFormData) : json_body :=
  JObject (<["name" := VStr (form_name data)]>
             (<["email" := VStr (form_email data)]> ∅)).

End WaitlistFormTsx.

(** ** The schema of the referral form: [src/components/referral-stats.tsx] *)

Module ReferralStatsTsx.

(** [ReferralCodeSchema.safeParse({ code })] with
    [code: z.string().min(3, ...).max(20, ...)]. *)
Definition ReferralCodeSchema (code : option string) : SafeParse string :=
  match code with
  | None => ParseFailure [("code", [Required])]
  | Some s =>
      match ((if (String.length s <? 3)%nat
              then [Message "Referral code is too short"] else [])
             ++ (if (20 <? String.length s)%nat
                 then [Message "Referral code is too long"] else []))%list with
      | [] => ParseSuccess s
      | issues => ParseFailure [("code", issues)]
      end
  end.

End ReferralStatsTsx.

(** ** The seeding script: [init-db.ts] *)

Module InitDb.

(** The [data] of a [create]. *)
Record CreateInput := {
  in_email : string;
  in_name : option string;
  in_referralCode : option string;
  in_referredBy : option string;
  in_verified : option bool
}.

(** What the script writes to the console, line by line; the numbers and
    the optional values that it interpolates are kept as they are. *)
Inductive line :=
| Log (text : string)
| Total (count : nat)
| HasReferrals (email : option string) (referrals : option nat)
| Error (text : string).

Record run := { table : list Subscriber; console : list line }.

(** A step of the script: [None] is a thrown exception. *)
Definition Script (A : Type) : Type := run -> option A * run.

Definition pure {A} (a : A) : Script A := fun r => (Some a, r).

Definition then_ {A B} (m : Script A) (k : A -> Script B) : Script B :=
  fun r =>
    match m r with
    | (Some a, r') => k a r'
    | (None, r') => (None, r')
    end.

Notation "x <~ m ;; k" := (then_ m (fun x => k))
  (at level 100, m at next level, right associativity, only parsing).

(** [console.log(...)] *)
Definition log (l : line) : Script unit :=
  fun r => (Some tt, {| table := table r; console := console r ++ [l] |}).

(** The row of [prisma.subscriber.create({ data })]: the columns that
    [data] leaves out take their defaults. *)
Definition row_of (e : env) (data : CreateInput) : Subscriber :=
  {| id := uuid e; email := in_email data; name := in_name data;
     createdAt := now e; updatedAt := now e;
     referralCode := in_referralCode data;
     referredBy := in_referredBy data;
     verified := match in_verified data with
                 | Some b => b
                 | None => false
                 end |}.

(** [await prisma.subscriber.create({ data })]: a violated constraint or
    a refused text value throws and leaves the table as it was. *)
Definition create (e : env) (data : CreateInput) : Script Subscriber :=
  fun r =>
    if prisma.accepts (table r) (row_of e data) then
      (Some (row_of e data),
       {| table := table r ++ [row_of e data]; console := console r |})
    else (None, r).

(** [await prisma.subscriber.count()] *)
Definition count : Script nat :=
  fun r => (Some (length (table r)), r).

(** [findUnique({ where: { id }, include: { referrals: true } })] *)
Definition findUnique_id_include (i : string)
  : Script (option (Subscriber * list Subscriber)) :=
  fun r =>
    (Some (match find (prisma.has_id i) (table r) with
           | Some s => Some (s, prisma.referrals_of s (table r))
           | None => None
           end), r).

Definition seed (em nm code : string) (referrer : option string)
  : CreateInput :=
  {| in_email := em; in_name := Some nm; in_referralCode := Some code;
     in_referredBy := referrer; in_verified := Some true |}.

(** The line for [user?.email] and [user?.referrals.length]. *)
Definition has_referrals (u : option (Subscriber * list Subscriber)) : line :=
  match u with
  | Some (s, referrals) =>
      HasReferrals (Some (email s)) (Some (length referrals))
  | None => HasReferrals None None
  end.

(** The body of the [try] of [main]; [draws k] is what the [k]-th [create]
    draws for its [uuid()] and [now()]. *)
Definition seeding (draws : nat -> env) : Script unit :=
  _ <~ log (Log "Starting database initialization...") ;;
  _ <~ log (Log "Creating initial test subscribers...") ;;
  user1 <~ create (draws 0%nat)
             (seed "user1@example.com" "John Doe" "USER1CODE" None) ;;
  user2 <~ create (draws 1%nat)
             (seed "user2@example.com" "Jane Smith" "USER2CODE" None) ;;
  _ <~ log (Log "Creating referral relationships...") ;;
  referral1 <~ create (draws 2%nat)
                 (seed "referred1@example.com" "Alex Johnson" "REFERRED1"
                    (Some (id user1))) ;;
  referral2 <~ create (draws 3%nat)
                 (seed "referred2@example.com" "Taylor Swift" "REFERRED2"
                    (Some (id user1))) ;;
  referral3 <~ create (draws 4%nat)
                 (seed "referred3@example.com" "Sam Wilson" "REFERRED3"
                    (Some (id user2))) ;;
  _ <~ log (Log "Database initialization completed successfully!") ;;
  total <~ count ;;
  _ <~ log (Total total) ;;
  _ <~ log (Log (String "010"%char "Referral Relationships:")) ;;
  user1WithReferrals <~ findUnique_id_include (id user1) ;;
  _ <~ log (has_referrals user1WithReferrals) ;;
  user2WithReferrals <~ findUnique_id_include (id user2) ;;
  log (has_referrals user2WithReferrals).

(** [main]: the [catch] writes the error and the [finally] only
    disconnects. *)
Definition main (draws : nat -> env) (t : list Subscriber) : run :=
  match seeding draws {| table := t; console := [] |} with
  | (Some _, r) => r
  | (None, r) =>
      {| table := table r;
         console := console r
                    ++ [Error "Error during database initialization:"] |}
  end.

(** The five rows of the script, in the order of their [create]. *)
Definition seeds (draws : nat -> env) : list Subscriber :=
  [ row_of (draws 0%nat)
      (seed "user1@example.com" "John Doe" "USER1CODE" None);
    row_of (draws 1%nat)
      (seed "user2@example.com" "Jane Smith" "USER2CODE" None);
    row_of (draws 2%nat)
      (seed "referred1@example.com" "Alex Johnson" "REFERRED1"
         (Some (uuid (draws 0%nat))));
    row_of (draws 3%nat)
      (seed "referred2@example.com" "Taylor Swift" "REFERRED2"
         (Some (uuid (draws 0%nat))));
    row_of (draws 4%nat)
      (seed "referred3@example.com" "Sam Wilson" "REFERRED3"
         (Some (uuid (draws 1%nat)))) ].

End InitDb.

(** ** Further notions used in the statements *)

(** The constraints of the schema on a whole table, and the shape of the
    referral relation: ids, emails and non-null codes are unique, and the
    referrer of a row is a row that was inserted before it. *)
Definition referrers_earlier (t : list Subscriber) : Prop :=
  forall l1 r l2 i,
    t = (l1 ++ r :: l2)%list -> referredBy r = Some i ->
    exists x, In x l1 /\ id x = i.

Definition consistent (t : list Subscriber) : Prop :=
  List.NoDup (map id t) /\ List.NoDup (map email t) /\ codes_unique t
  /\ referrers_earlier t.

(** What [findUnique] by id with its referrals gives on a table. *)
Definition with_referrals (i : string) (T : list Subscriber)
  : option (Subscriber * list Subscriber) :=
  match find (prisma.has_id i) T with
  | Some s => Some (s, prisma.referrals_of s T)
  | None => None
  end.

(** A run of signups, one request and its draws after the other. *)
Definition signups (isEmail : string -> bool)
    (l : list (env * json_body)) (d : db) : db :=
  fold_left (fun d' er => snd (WaitlistRoute.POST isEmail (fst er) (snd er) d'))
    l d.

(** The output of the masking differs from its input by stars only. *)
Definition starred (a b : ascii) : Prop := b = a \/ b = "*"%char.

(** * Properties *)

(** ** Strings and their code units *)

Lemma chars_app (a b : string) :
  list_ascii_of_string (a ++ b)
  = (list_ascii_of_string a ++ list_ascii_of_string b)%list.
Proof.
  induction a as [|c a IH]; simpl; [reflexivity|]. now rewrite IH.
Qed.

Lemma of_chars_app (a b : list ascii) :
  string_of_list_ascii (a ++ b)
  = string_of_list_ascii a ++ string_of_list_ascii b.
Proof.
  induction a as [|c a IH]; simpl; [reflexivity|]. now rewrite IH.
Qed.

Lemma chars_length (s : string) :
  length (list_ascii_of_string s) = String.length s.
Proof.
  induction s as [|c s IH]; simpl; [reflexivity|]. now rewrite IH.
Qed.

Lemma of_chars_length (l : list ascii) :
  String.length (string_of_list_ascii l) = length l.
Proof.
  induction l as [|c l IH]; simpl; [reflexivity|]. now rewrite IH.
Qed.

(** ** The masking expression *)

Section Masking.

Import Regex.

Lemma star_then_at_without_at (d : list ascii) :
  existsb is_at d = false -> star_then_at d = None.
Proof.
  induction d as [|c d IH]; simpl; [reflexivity|].
  intros H. apply orb_false_iff in H as [Hc Hd].
  rewrite (IH Hd), Hc. now destruct (dot c).
Qed.

(** The greedy star runs into the domain and backtracks to the [@]. *)
Lemma star_then_at_local (l d : list ascii) :
  forallb (fun c => dot c && negb (is_at c)) l = true ->
  existsb is_at d = false ->
  star_then_at (l ++ "@"%char :: d) = Some (l, "@"%char :: d).
Proof.
  intros Hl Hd. induction l as [|c l IH]; simpl.
  - now rewrite (star_then_at_without_at d Hd).
  - simpl in Hl. apply andb_true_iff in Hl as [Hc Hl].
    apply andb_true_iff in Hc as [Hdot _].
    now rewrite Hdot, (IH Hl).
Qed.

Lemma match_here_without_at (c1 c2 : ascii) (d : list ascii) :
  existsb is_at d = false -> match_here (c1 :: c2 :: d) = None.
Proof.
  intros Hd. simpl. rewrite (star_then_at_without_at d Hd).
  now destruct (dot c1 && dot c2).
Qed.

Lemma replace_first_without_at f (d : list ascii) :
  existsb is_at d = false -> replace_first f d = d.
Proof.
  induction d as [|c1 d IH]; [reflexivity|].
  intros H. pose proof H as H'. simpl in H'.
  apply orb_false_iff in H' as [_ Hd].
  destruct d as [|c2 d'].
  - reflexivity.
  - assert (Hd' : existsb is_at d' = false).
    { simpl in Hd. now apply orb_false_iff in Hd as [_ ?]. }
    change (replace_first f (c1 :: c2 :: d'))
      with (match match_here (c1 :: c2 :: d') with
            | Some (start, rest, after) => (f start rest ++ after)%list
            | None => c1 :: replace_first f (c2 :: d')
            end).
    rewrite (match_here_without_at c1 c2 d' Hd'). now rewrite (IH Hd).
Qed.

Lemma replace_first_at_head f (d : list ascii) :
  existsb is_at d = false ->
  replace_first f ("@"%char :: d) = "@"%char :: d.
Proof.
  intros Hd. destruct d as [|c2 d'].
  - reflexivity.
  - assert (Hd' : existsb is_at d' = false).
    { simpl in Hd. now apply orb_false_iff in Hd as [_ ?]. }
    change (replace_first f ("@"%char :: c2 :: d'))
      with (match match_here ("@"%char :: c2 :: d') with
            | Some (start, rest, after) => (f start rest ++ after)%list
            | None => "@"%char :: replace_first f (c2 :: d')
            end).
    rewrite (match_here_without_at _ c2 d' Hd').
    now rewrite (replace_first_without_at f _ Hd).
Qed.

Lemma replace_first_email (l d : list ascii) :
  forallb (fun c => dot c && negb (is_at c)) l = true ->
  existsb is_at d = false ->
  replace_first mask_replacer (l ++ "@"%char :: d)
  = (firstn 2 l ++ Js.stars (length l - 2) ++ "@"%char :: d)%list.
Proof.
  intros Hl Hd. destruct l as [|c1 [|c2 l]].
  - simpl. now apply replace_first_at_head.
  - change (replace_first mask_replacer ([c1] ++ "@"%char :: d))
      with (match match_here (c1 :: "@"%char :: d) with
            | Some (start, rest, after) =>
                (mask_replacer start rest ++ after)%list
            | None => c1 :: replace_first mask_replacer ("@"%char :: d)
            end).
    rewrite (match_here_without_at c1 _ d Hd).
    now rewrite (replace_first_at_head _ d Hd).
  - simpl in Hl.
    apply andb_true_iff in Hl as [H1 Hl]. apply andb_true_iff in Hl as [H2 Hl].
    apply andb_true_iff in H1 as [H1 _]. apply andb_true_iff in H2 as [H2 _].
    change (replace_first mask_replacer ((c1 :: c2 :: l) ++ "@"%char :: d))
      with (match match_here (c1 :: c2 :: l ++ "@"%char :: d) with
            | Some (start, rest, after) =>
                (mask_replacer start rest ++ after)%list
            | None =>
                c1 :: replace_first mask_replacer (c2 :: l ++ "@"%char :: d)
            end).
    unfold match_here. rewrite H1, H2, (star_then_at_local l d Hl Hd).
    simpl. unfold mask_replacer. simpl.
    now rewrite Nat.sub_0_r.
Qed.

End Masking.

Lemma substring_firstn (n : nat) (s : string) :
  String.substring 0 n s
  = string_of_list_ascii (firstn n (list_ascii_of_string s)).
Proof.
  revert s. induction n as [|n IH]; intros [|c s]; simpl; try reflexivity.
  now rewrite IH.
Qed.

(** The entry that the referral route makes of a referred row whose email
    is a local part without [@] or line break, an [@], and a domain
    without [@]: the first two characters of the local part, one star for
    each of its remaining characters, and the domain as it is. *)
Lemma entry_keeps_two_and_stars (ref : Subscriber) (local domain : string) :
  email ref = local ++ "@" ++ domain ->
  plain local -> no_at domain ->
  entry_email (ReferralsRoute.entry ref) = spec_mask local domain.
Proof.
  intros He Hl Hd.
  unfold ReferralsRoute.entry. cbn [entry_email]. rewrite He.
  unfold mask_email, spec_mask.
  rewrite chars_app.
  change (list_ascii_of_string ("@" ++ domain))
    with ("@"%char :: list_ascii_of_string domain).
  rewrite (replace_first_email _ _ Hl Hd).
  rewrite !of_chars_app, <- substring_firstn, chars_length. simpl.
  now rewrite string_of_list_ascii_of_string.
Qed.

(** The seven stars, not the three of the other rendering; and a local part
    of one character is left alone as well. *)
Example mask_email_renderings :
  mask_email "johnsmith@example.com" <> "jo***@example.com"
  /\ spec_mask "referred1" "example.com" = "re*******@example.com"
  /\ mask_email "a@example.com" = "a@example.com".
Proof. split; [discriminate | split; reflexivity]. Qed.

(** ** Queries on the table *)

Lemma opt_string_eqb_eq (a b : option string) :
  opt_string_eqb a b = true <-> a = b.
Proof.
  destruct a as [x|], b as [y|]; simpl; try (split; congruence).
  rewrite String.eqb_eq. split; congruence.
Qed.

Lemma find_email_none (t : list Subscriber) (e : string) :
  (forall r, In r t -> email r <> e) -> find (prisma.has_email e) t = None.
Proof.
  intros H.
  destruct (find (prisma.has_email e) t) as [r|] eqn:F; [|reflexivity].
  apply find_some in F as [Hin Heq]. apply String.eqb_eq in Heq.
  now destruct (H r Hin).
Qed.

Lemma find_email_some (t : list Subscriber) (e : string) :
  (exists r, In r t /\ email r = e) ->
  exists r, find (prisma.has_email e) t = Some r.
Proof.
  intros [r [Hin Heq]].
  destruct (find (prisma.has_email e) t) as [r'|] eqn:F; [now exists r'|].
  pose proof (find_none _ _ F r Hin) as N. unfold prisma.has_email in N.
  apply String.eqb_neq in N. congruence.
Qed.

Lemma find_code_none (t : list Subscriber) (c : string) :
  (forall r, In r t -> referralCode r <> Some c) ->
  find (prisma.has_referralCode c) t = None.
Proof.
  intros H. destruct (find (prisma.has_referralCode c) t) as [r|] eqn:F;
    [|reflexivity].
  apply find_some in F as [Hin Heq]. apply opt_string_eqb_eq in Heq.
  now destruct (H r Hin).
Qed.

Lemma find_code_unique (t : list Subscriber) (c : string) (s : Subscriber) :
  codes_unique t -> In s t -> referralCode s = Some c ->
  find (prisma.has_referralCode c) t = Some s.
Proof.
  intros U Hin Hc.
  destruct (find (prisma.has_referralCode c) t) as [r|] eqn:F.
  - apply find_some in F as [Hr Heq]. apply opt_string_eqb_eq in Heq.
    f_equal. exact (U r s c Hr Hin Heq Hc).
  - pose proof (find_none _ _ F s Hin) as N.
    unfold prisma.has_referralCode in N. rewrite Hc in N. simpl in N.
    now rewrite String.eqb_refl in N.
Qed.

Lemma find_app_some {A} (p : A -> bool) (t u : list A) (x : A) :
  find p t = Some x -> find p (t ++ u) = Some x.
Proof.
  induction t as [|y t IH]; simpl; [discriminate|].
  destruct (p y); [trivial | exact IH].
Qed.

Lemma existsb_false_forall {A} (p : A -> bool) (t : list A) :
  (forall x, In x t -> p x = false) -> existsb p t = false.
Proof.
  intros H. induction t as [|y t IH]; simpl; [reflexivity|].
  rewrite (H y (or_introl eq_refl)). apply IH.
  intros x Hx. apply H. now right.
Qed.

(** A row is accepted when its id, its email and its code are not in the
    table yet, its referrer, if any, is, and the store takes its texts. *)
Lemma accepts_fresh (t : list Subscriber) (r : Subscriber) (c : string) :
  (forall x, In x t -> id x <> id r) ->
  (forall x, In x t -> email x <> email r) ->
  referralCode r = Some c ->
  (forall x, In x t -> referralCode x <> Some c) ->
  (forall i, referredBy r = Some i -> exists x, In x t /\ id x = i) ->
  Postgres.row r = true ->
  prisma.accepts t r = true.
Proof.
  intros Hid Hem Hc Hcode Href Hrow. unfold prisma.accepts.
  rewrite Hrow, andb_true_r, Hc.
  rewrite !andb_true_iff, !negb_true_iff. repeat split.
  - apply existsb_false_forall. intros x Hx. apply String.eqb_neq.
    exact (Hid x Hx).
  - apply existsb_false_forall. intros x Hx. apply String.eqb_neq.
    exact (Hem x Hx).
  - apply existsb_false_forall. intros x Hx.
    destruct (prisma.has_referralCode c x) eqn:E; [|reflexivity].
    apply opt_string_eqb_eq in E. now destruct (Hcode x Hx).
  - destruct (referredBy r) as [i|]; [|reflexivity].
    destruct (Href i eq_refl) as [x [Hx Hi]].
    apply existsb_exists. exists x. split; [exact Hx|].
    now apply String.eqb_eq.
Qed.

Lemma codes_unique_insert (t : list Subscriber) (r : Subscriber) :
  codes_unique t -> prisma.accepts t r = true -> codes_unique (t ++ [r]).
Proof.
  intros U A r1 r2 c H1 H2 C1 C2.
  unfold prisma.accepts in A. rewrite !andb_true_iff in A.
  destruct A as [[[[_ _] A] _] _].
  assert (N : forall x, In x t -> referralCode x = Some c ->
                        referralCode r = Some c -> False).
  { intros x Hx Cx Cr. rewrite Cr in A. apply negb_true_iff in A.
    pose proof (existsb_exists (prisma.has_referralCode c) t) as [_ E].
    rewrite E in A; [discriminate|]. exists x. split; [exact Hx|].
    now apply opt_string_eqb_eq. }
  apply in_app_or in H1 as [H1|[H1|[]]]; apply in_app_or in H2 as [H2|[H2|[]]];
    subst.
  - exact (U r1 r2 c H1 H2 C1 C2).
  - destruct (N r1 H1 C1 C2).
  - destruct (N r2 H2 C2 C1).
  - reflexivity.
Qed.

(** An accepted row has texts that the store takes, so that the tables
    made by inserts are tables the store can hold. *)
Lemma accepted_row_is_text (t : list Subscriber) (r : Subscriber) :
  prisma.accepts t r = true -> Postgres.row r = true.
Proof.
  unfold prisma.accepts. rewrite !andb_true_iff. now intros [_ H].
Qed.

Lemma table_insert (t : list Subscriber) (r : Subscriber) :
  Postgres.table t -> prisma.accepts t r = true -> Postgres.table (t ++ [r]).
Proof.
  intros T A x Hx. apply in_app_or in Hx as [Hx|[<-|[]]].
  - now apply T.
  - exact (accepted_row_is_text t r A).
Qed.

(** In a table that the store can hold, no row has a code that the store
    refuses: the lookup of such a code throws, whatever the rows are. *)
Lemma refused_code_not_held (t : list Subscriber) (c : string) :
  Postgres.table t -> Postgres.text c = false ->
  find (prisma.has_referralCode c) t = None.
Proof.
  intros T R. apply find_code_none. intros r Hr E.
  specialize (T r Hr). unfold Postgres.row in T.
  rewrite E in T. cbn [Postgres.optional_text] in T. rewrite R in T.
  now rewrite andb_false_r in T.
Qed.

Lemma refused_lookup_throws (c : string) (d : db) :
  Postgres.table (rows d) -> Postgres.text c = false ->
  prisma.findUnique_referralCode c d
  = (None, sent (FindUniqueByReferralCode c) d)
  /\ prisma.findUnique_referralCode_include c d
     = (None, sent (FindUniqueByReferralCode c) d).
Proof.
  intros T R.
  unfold prisma.findUnique_referralCode,
    prisma.findUnique_referralCode_include.
  now rewrite (refused_code_not_held _ _ T R), R.
Qed.

(** ** The generated code *)

Lemma upper_char_digit36 (c : ascii) :
  is_digit36 c = true ->
  Js.is_digit (Js.upper_char c) || Js.is_upper (Js.upper_char c) = true.
Proof.
  destruct c as [[] [] [] [] [] [] [] []]; vm_compute; congruence.
Qed.

Lemma toUpperCase_length (s : string) :
  String.length (Js.toUpperCase s) = String.length s.
Proof.
  induction s as [|c s IH]; simpl; [reflexivity|]. now rewrite IH.
Qed.

Lemma toUpperCase_chars (s : string) :
  list_ascii_of_string (Js.toUpperCase s)
  = map Js.upper_char (list_ascii_of_string s).
Proof.
  induction s as [|c s IH]; simpl; [reflexivity|]. now rewrite IH.
Qed.

Lemma chars_inj (s : string) (l : list ascii) :
  list_ascii_of_string s = l -> s = string_of_list_ascii l.
Proof.
  intros <-. now rewrite string_of_list_ascii_of_string.
Qed.

(** The code is the upper-cased first eight fraction digits of the draw, or
    all of them when there are fewer. *)
Lemma generateUniqueCode_digits (e : env) (ds : list ascii) :
  fraction_digits (random_text e) = Some ds ->
  WaitlistRoute.generateUniqueCode e
  = Js.toUpperCase (string_of_list_ascii (firstn 8 ds)).
Proof.
  unfold fraction_digits, WaitlistRoute.generateUniqueCode, Js.substring.
  destruct (list_ascii_of_string (random_text e)) as [|c0 [|c1 l]] eqn:E;
    try discriminate.
  - destruct (Ascii.eqb_spec c0 "0"%char) as [->|N].
    + intros [= <-]. now rewrite (chars_inj _ _ E).
    + destruct c0 as [[] [] [] [] [] [] [] []]; try discriminate.
      now destruct N.
  - intros H.
    assert (Hds : l = ds /\ True).
    { destruct c0 as [[] [] [] [] [] [] [] []]; try discriminate.
      destruct c1 as [[] [] [] [] [] [] [] []]; try discriminate.
      destruct (forallb is_digit36 l); [|discriminate].
      injection H as <-. now split. }
    destruct Hds as [<- _]. rewrite (chars_inj _ _ E). simpl.
    now rewrite substring_firstn, list_ascii_of_string_of_list_ascii.
Qed.

Lemma fraction_digits_forall (s : string) (ds : list ascii) :
  fraction_digits s = Some ds -> forallb is_digit36 ds = true.
Proof.
  unfold fraction_digits.
  destruct (list_ascii_of_string s) as [|c0 [|c1 l]]; try discriminate.
  - destruct c0 as [[] [] [] [] [] [] [] []]; try discriminate.
    now intros [= <-].
  - destruct c0 as [[] [] [] [] [] [] [] []]; try discriminate.
    destruct c1 as [[] [] [] [] [] [] [] []]; try discriminate.
    destruct (forallb is_digit36 l) eqn:F; [|discriminate].
    now intros [= <-].
Qed.

(** Whatever the draw, the code is made of upper-case letters and digits
    and has at most eight of them; it has eight exactly when the draw has at
    least eight fraction digits. *)
Lemma generateUniqueCode_format (e : env) (ds : list ascii) :
  fraction_digits (random_text e) = Some ds ->
  is_upper_alnum (WaitlistRoute.generateUniqueCode e) = true
  /\ String.length (WaitlistRoute.generateUniqueCode e) = Nat.min 8 (length ds).
Proof.
  intros H. rewrite (generateUniqueCode_digits e ds H). split.
  - unfold is_upper_alnum.
    rewrite toUpperCase_chars, list_ascii_of_string_of_list_ascii.
    apply forallb_forall. intros c Hc.
    apply in_map_iff in Hc as [c' [<- Hc]].
    apply upper_char_digit36.
    pose proof (fraction_digits_forall _ _ H) as F.
    rewrite forallb_forall in F. apply F.
    revert Hc. generalize 8%nat. clear.
    induction ds as [|x ds IH]; intros [|n]; simpl; try tauto.
    intros [->|Hc]; [now left | right; eauto].
  - now rewrite toUpperCase_length, of_chars_length, length_firstn.
Qed.

(** ** Signup *)

Section Signup.

Import WaitlistRoute.

Variable isEmail : string -> bool.

Lemma insert_run (e : env) (data : WaitlistData) (ref : option string)
    (d : db) :
  insert e data ref d
  = if prisma.accepts (rows d) (new_row e data ref) then
      (Some (joined (Some (generateUniqueCode e))),
       {| rows := rows d ++ [new_row e data ref];
          queries := queries d ++ [CreateSubscriber (data_email data)] |})
    else (None, sent (CreateSubscriber (data_email data)) d).
Proof.
  unfold insert, bind, prisma.create, new_row.
  now destruct (prisma.accepts _ _).
Qed.

(** The handler after a successful validation, query by query. *)
Lemma POST_steps (e : env) (request : json_body) (data : WaitlistData)
    (d : db) :
  safeParse isEmail request = ParseSuccess data ->
  POST isEmail e request d
  = let d1 := sent (FindUniqueByEmail (data_email data)) d in
    match find (prisma.has_email (data_email data)) (rows d) with
    | Some _ => (duplicate_email, d1)
    | None =>
        if Js.truthy (data_referralCode data) then
          let c := Js.narrowed (data_referralCode data) in
          let d2 := sent (FindUniqueByReferralCode c) d1 in
          match find (prisma.has_referralCode c) (rows d) with
          | None =>
              (if Postgres.text c then invalid_referral_code
               else server_error, d2)
          | Some r => try_catch (insert e data (Some (id r))) server_error d2
          end
        else try_catch (insert e data None) server_error d1
    end.
Proof.
  intros V. unfold POST, try_catch at 1.
  destruct request as [| |fields]; try discriminate.
  unfold request_json, bind at 1, ret at 1. rewrite V.
  unfold bind at 1, prisma.findUnique_email. cbn [rows sent].
  destruct (find (prisma.has_email (data_email data)) (rows d)) as [x|];
    [reflexivity|].
  destruct (Js.truthy (data_referralCode data)).
  - unfold bind at 1, prisma.findUnique_referralCode. cbn [rows sent].
    destruct (find _ (rows d)) as [r|];
      [|now destruct (Postgres.text _)].
    unfold try_catch. now destruct (insert _ _ _ _) as [[?|] ?].
  - unfold try_catch. now destruct (insert _ _ _ _) as [[?|] ?].
Qed.

Lemma on_waitlist_found (t : list Subscriber) (em : string) :
  on_waitlist t em -> exists r, find (prisma.has_email em) t = Some r.
Proof. apply find_email_some. Qed.

Lemma off_waitlist_not_found (t : list Subscriber) (em : string) :
  ~ on_waitlist t em -> find (prisma.has_email em) t = None.
Proof.
  intros N. apply find_email_none. intros r Hr E. apply N. now exists r.
Qed.

Lemma unknown_code_not_found (t : list Subscriber) (c : string) :
  ~ code_known t c -> find (prisma.has_referralCode c) t = None.
Proof.
  intros N. apply find_code_none. intros r Hr E. apply N. now exists r.
Qed.

Lemma truthy_nonempty (c : string) : c <> "" -> Js.truthy (Some c) = true.
Proof.
  intros N. unfold Js.truthy. apply negb_true_iff. now apply String.eqb_neq.
Qed.

(** C5.  A valid signup whose email is already in the table is answered
    with the duplicate-email failure, status 400; the table keeps its
    rows and a count query afterwards gives what it gave before. *)
Theorem duplicate_email_leaves_store (e : env) (request : json_body)
    (data : WaitlistData) (d : db) :
  safeParse isEmail request = ParseSuccess data ->
  on_waitlist (rows d) (data_email data) ->
  fst (POST isEmail e request d) = duplicate_email
  /\ status (fst (POST isEmail e request d)) = 400
  /\ rows (snd (POST isEmail e request d)) = rows d
  /\ payload (fst (CountRoute.GET (snd (POST isEmail e request d))))
     = payload (fst (CountRoute.GET d)).
Proof.
  intros V Hdup. rewrite (POST_steps e request data d V).
  destruct (on_waitlist_found _ _ Hdup) as [r ->]. cbn.
  repeat split; reflexivity.
Qed.

(** C4, as the handler has it.  The email lookup is the first query and
    the referral-code lookup comes after it: a valid signup that carries
    an unknown referral code and an email already in the table fails as a
    duplicate email, not as an invalid referral code, and the email
    lookup is the only query it sends. *)
Theorem email_check_precedes_referral_lookup (e : env)
    (request : json_body) (data : WaitlistData) (c : string) (d : db) :
  safeParse isEmail request = ParseSuccess data ->
  data_referralCode data = Some c ->
  ~ code_known (rows d) c ->
  on_waitlist (rows d) (data_email data) ->
  fst (POST isEmail e request d) = duplicate_email
  /\ fst (POST isEmail e request d) <> invalid_referral_code
  /\ queries (snd (POST isEmail e request d))
     = (queries d ++ [FindUniqueByEmail (data_email data)])%list.
Proof.
  intros V _ _ Hdup. rewrite (POST_steps e request data d V).
  destruct (on_waitlist_found _ _ Hdup) as [r ->]. cbn.
  split; [reflexivity | split; [discriminate | reflexivity]].
Qed.

(** C6, as the handler has it.  A valid signup with an email that is not
    in the table yet and a referral code that is not empty, has no NUL
    character in it, so that the store takes it in a lookup, and is held
    by no row is answered with the invalid-referral-code failure, status
    400, and no row is created. *)
Theorem unknown_referral_code_rejected (e : env) (request : json_body)
    (data : WaitlistData) (c : string) (d : db) :
  safeParse isEmail request = ParseSuccess data ->
  data_referralCode data = Some c -> c <> "" ->
  Postgres.text c = true ->
  ~ code_known (rows d) c ->
  ~ on_waitlist (rows d) (data_email data) ->
  fst (POST isEmail e request d) = invalid_referral_code
  /\ status (fst (POST isEmail e request d)) = 400
  /\ rows (snd (POST isEmail e request d)) = rows d.
Proof.
  intros V Hc Hne Htext Hunknown Hfresh.
  rewrite (POST_steps e request data d V).
  rewrite (off_waitlist_not_found _ _ Hfresh), Hc.
  rewrite (truthy_nonempty c Hne). cbn [Js.narrowed].
  rewrite (unknown_code_not_found _ _ Hunknown), Htext. cbn.
  split; [reflexivity | split; reflexivity].
Qed.

End Signup.

(** ** Referral statistics *)

Section Referrals.

Import ReferralsRoute.

Lemma referralQuerySchema_accepts (c : string) :
  well_shaped (Some c) -> referralQuerySchema (Some c) = ParseSuccess c.
Proof.
  simpl. intros [Hlo Hhi]. unfold referralQuerySchema.
  destruct (Nat.ltb_spec (String.length c) 3) as [L|_]; [lia|].
  destruct (Nat.ltb_spec 20 (String.length c)) as [L|_]; [lia|].
  reflexivity.
Qed.

Lemma referralQuerySchema_rejects (code : option string) :
  ~ well_shaped code ->
  exists errs, referralQuerySchema code = ParseFailure errs.
Proof.
  destruct code as [c|]; simpl; intros N; [|eauto].
  unfold referralQuerySchema.
  destruct (Nat.ltb_spec (String.length c) 3) as [L|L];
    destruct (Nat.ltb_spec 20 (String.length c)) as [H|H];
    simpl; eauto.
  destruct N. lia.
Qed.

(** The handler past its schema: one lookup, then the answer. *)
Lemma GET_steps (c : string) (d : db) :
  well_shaped (Some c) ->
  GET (Some c) d
  = (match find (prisma.has_referralCode c) (rows d) with
     | Some s => stats (prisma.referrals_of s (rows d))
     | None => if Postgres.text c then not_found else server_error
     end,
     sent (FindUniqueByReferralCode c) d).
Proof.
  intros W. unfold GET, try_catch.
  rewrite (referralQuerySchema_accepts c W).
  unfold bind, prisma.findUnique_referralCode_include. cbn [Js.narrowed].
  destruct (find _ (rows d)); [reflexivity|].
  now destruct (Postgres.text c).
Qed.

Lemma GET_rejects (code : option string) (d : db) :
  ~ well_shaped code -> GET code d = (invalid_format, d).
Proof.
  intros N. unfold GET, try_catch.
  now destruct (referralQuerySchema_rejects code N) as [errs ->].
Qed.

Lemma stats_not_invalid_format (l : list Subscriber) :
  stats l <> invalid_format.
Proof. discriminate. Qed.

Lemma referralQuerySchema_success (code : option string) (x : string) :
  ReferralsRoute.referralQuerySchema code = ParseSuccess x ->
  well_shaped code /\ code = Some x.
Proof.
  destruct code as [c|]; simpl; [|discriminate].
  destruct (Nat.ltb_spec (String.length c) 3) as [L|L];
    destruct (Nat.ltb_spec 20 (String.length c)) as [H|H];
    simpl; try discriminate.
  intros [= <-]. split; [lia | reflexivity].
Qed.

(** What the route has done when it answers with statistics. *)
Lemma GET_stats_inv (code : option string) (d : db) (n : nat)
    (l : list ReferralEntry) :
  payload (fst (GET code d)) = Stats n l ->
  exists c s,
    code = Some c /\ well_shaped code
    /\ find (prisma.has_referralCode c) (rows d) = Some s
    /\ n = length (prisma.referrals_of s (rows d))
    /\ l = map entry (prisma.referrals_of s (rows d)).
Proof.
  unfold GET, try_catch.
  destruct (referralQuerySchema code) as [c|errs] eqn:Q; [|discriminate].
  destruct (referralQuerySchema_success code c Q) as [W ->].
  unfold bind, prisma.findUnique_referralCode_include. cbn [Js.narrowed].
  destruct (find (prisma.has_referralCode c) (rows d)) as [s|] eqn:F;
    [|now destruct (Postgres.text c)].
  cbn. intros [= <- <-]. now exists c, s.
Qed.

(** C2.  Whenever the referral route answers with statistics, the code is
    held by a row S of the table and the list it returns has one entry for
    each row referred by S, in table order.  For every such row whose
    email is made of a local part without [@] or line break, an [@], and a
    domain without [@], the email of its entry keeps the first two
    characters of the local part, has one star for each of its remaining
    characters and leaves the domain as it is; johnsmith@example.com
    becomes jo*******@example.com (seven stars) and ab@example.com is
    returned unchanged. *)
Theorem mask_email_keeps_two_and_stars (code : option string) (d : db)
    (n : nat) (l : list ReferralEntry) :
  payload (fst (GET code d)) = Stats n l ->
  (exists s,
     In s (rows d) /\ referralCode s = code
     /\ length l = length (prisma.referrals_of s (rows d))
     /\ forall i ref local domain,
          nth_error (prisma.referrals_of s (rows d)) i = Some ref ->
          email ref = local ++ "@" ++ domain ->
          plain local -> no_at domain ->
          exists x,
            nth_error l i = Some x
            /\ date x = createdAt ref
            /\ entry_email x = spec_mask local domain)
  /\ mask_email "johnsmith@example.com" = "jo*******@example.com"
  /\ mask_email "ab@example.com" = "ab@example.com".
Proof.
  intros H. split; [|split; reflexivity].
  destruct (GET_stats_inv code d n l H) as (c & s & -> & _ & F & _ & ->).
  apply find_some in F as [Hs Hc]. apply opt_string_eqb_eq in Hc.
  exists s. split; [exact Hs|]. split; [exact Hc|].
  split; [now rewrite length_map|].
  intros i ref local domain Hi He Hl Hd.
  exists (entry ref). split; [now apply map_nth_error|].
  split; [reflexivity|].
  now apply entry_keeps_two_and_stars.
Qed.

(** C8, as the handler has it.  The route takes past its schema exactly
    the codes whose own length, with nothing trimmed, is between 3 and 20:
    for these it sends one lookup to the table and does not answer with
    the format failure; for every other code, and for a missing one, it
    answers with the format failure, status 400, without any query. *)
Theorem code_shape_is_checked_untrimmed (code : option string) (d : db) :
  (well_shaped code ->
   fst (GET code d) <> invalid_format
   /\ snd (GET code d)
      = sent (FindUniqueByReferralCode (Js.narrowed code)) d)
  /\ (~ well_shaped code ->
      GET code d = (invalid_format, d) /\ status invalid_format = 400).
Proof.
  split.
  - destruct code as [c|]; [|intros []]. intros W.
    rewrite (GET_steps c d W). cbn [fst snd Js.narrowed]. split; [|reflexivity].
    destruct (find _ (rows d)); [|destruct (Postgres.text c)]; discriminate.
  - intros N. split; [now apply GET_rejects | reflexivity].
Qed.

(** C9, as the handler has it.  A code of 3 to 20 characters that has no
    NUL character in it, so that the store takes it in a lookup, and that
    no row holds is answered with the not-found failure, status 404, which
    carries no statistics; the table is left as it was. *)
Theorem unknown_code_is_not_found (c : string) (d : db) :
  well_shaped (Some c) ->
  Postgres.text c = true ->
  ~ code_known (rows d) c ->
  fst (GET (Some c) d) = not_found
  /\ status (fst (GET (Some c) d)) = 404
  /\ payload (fst (GET (Some c) d)) = NoPayload
  /\ rows (snd (GET (Some c) d)) = rows d.
Proof.
  intros W T N. rewrite (GET_steps c d W).
  rewrite (find_code_none (rows d) c).
  - rewrite T. cbn. repeat split.
  - intros r Hr E. apply N. now exists r.
Qed.

(** A code of 3 to 20 characters that the store refuses as a text value
    and that no row holds: the lookup throws, and the answer is the server
    error, status 500. *)
Lemma refused_code_is_server_error (c : string) (d : db) :
  well_shaped (Some c) ->
  Postgres.text c = false ->
  ~ code_known (rows d) c ->
  GET (Some c) d = (server_error, sent (FindUniqueByReferralCode c) d).
Proof.
  intros W T N. rewrite (GET_steps c d W).
  rewrite (find_code_none (rows d) c).
  - now rewrite T.
  - intros r Hr E. apply N. now exists r.
Qed.

Lemma referrals_of_none (s : Subscriber) (t : list Subscriber) :
  (forall r, In r t -> referredBy r <> Some (id s)) ->
  prisma.referrals_of s t = [].
Proof.
  intros H. unfold prisma.referrals_of.
  induction t as [|x t IH]; simpl; [reflexivity|].
  destruct (prisma.referred_by (id s) x) eqn:E.
  - apply opt_string_eqb_eq in E. now destruct (H x (or_introl eq_refl)).
  - apply IH. intros r Hr. apply H. now right.
Qed.

(** C10, as the handler has it.  In a table with unique codes, for a
    subscriber whose code has 3 to 20 characters and whom no row names as
    its referrer, the lookup of that code succeeds (it is not the
    not-found failure) with zero referrals and an empty list. *)
Theorem unused_code_has_empty_stats (c : string) (s : Subscriber) (d : db) :
  codes_unique (rows d) ->
  In s (rows d) -> referralCode s = Some c ->
  well_shaped (Some c) ->
  (forall r, In r (rows d) -> referredBy r <> Some (id s)) ->
  fst (GET (Some c) d) <> not_found
  /\ status (fst (GET (Some c) d)) = 200
  /\ success (fst (GET (Some c) d)) = true
  /\ payload (fst (GET (Some c) d)) = Stats 0 [].
Proof.
  intros U Hs Hc W Hnone. rewrite (GET_steps c d W).
  rewrite (find_code_unique (rows d) c s U Hs Hc).
  rewrite (referrals_of_none s (rows d) Hnone). cbn.
  split; [discriminate | repeat split].
Qed.

End Referrals.

(** ** Signups that insert a row *)

Section Inserting.

Import WaitlistRoute.

Variable isEmail : string -> bool.

Lemma signup_inserts_unreferred (e : env) (request : json_body)
    (data : WaitlistData) (d : db) :
  safeParse isEmail request = ParseSuccess data ->
  Js.truthy (data_referralCode data) = false ->
  ~ on_waitlist (rows d) (data_email data) ->
  prisma.accepts (rows d) (new_row e data None) = true ->
  POST isEmail e request d
  = (joined (Some (generateUniqueCode e)),
     {| rows := rows d ++ [new_row e data None];
        queries := queries d ++ [FindUniqueByEmail (data_email data)]
                   ++ [CreateSubscriber (data_email data)] |}).
Proof.
  intros V T F A. rewrite (POST_steps isEmail e request data d V).
  rewrite (off_waitlist_not_found _ _ F), T. cbn zeta.
  unfold try_catch. rewrite insert_run. cbn [rows sent]. rewrite A.
  cbn [queries sent]. now rewrite <- !app_assoc.
Qed.

Lemma signup_inserts_referred (e : env) (request : json_body)
    (data : WaitlistData) (c : string) (s : Subscriber) (d : db) :
  safeParse isEmail request = ParseSuccess data ->
  data_referralCode data = Some c -> c <> "" ->
  find (prisma.has_referralCode c) (rows d) = Some s ->
  ~ on_waitlist (rows d) (data_email data) ->
  prisma.accepts (rows d) (new_row e data (Some (id s))) = true ->
  POST isEmail e request d
  = (joined (Some (generateUniqueCode e)),
     {| rows := rows d ++ [new_row e data (Some (id s))];
        queries := queries d ++ [FindUniqueByEmail (data_email data)]
                   ++ [FindUniqueByReferralCode c]
                   ++ [CreateSubscriber (data_email data)] |}).
Proof.
  intros V Hc Hne Hs F A. rewrite (POST_steps isEmail e request data d V).
  rewrite (off_waitlist_not_found _ _ F), Hc, (truthy_nonempty c Hne).
  cbn [Js.narrowed]. cbn zeta. rewrite Hs.
  unfold try_catch. rewrite insert_run. cbn [rows sent]. rewrite A.
  cbn [queries sent]. now rewrite <- !app_assoc.
Qed.

(** A rejected insert is caught: the answer is the server error and the
    table keeps its rows. *)
Lemma signup_insert_rejected (e : env) (request : json_body)
    (data : WaitlistData) (d : db) :
  safeParse isEmail request = ParseSuccess data ->
  Js.truthy (data_referralCode data) = false ->
  ~ on_waitlist (rows d) (data_email data) ->
  prisma.accepts (rows d) (new_row e data None) = false ->
  fst (POST isEmail e request d) = server_error
  /\ rows (snd (POST isEmail e request d)) = rows d.
Proof.
  intros V T F A. rewrite (POST_steps isEmail e request data d V).
  rewrite (off_waitlist_not_found _ _ F), T. cbn zeta.
  unfold try_catch. rewrite insert_run. cbn [rows sent]. rewrite A.
  now split.
Qed.

(** A code of upper-case letters and digits is a text the store takes. *)
Lemma upper_alnum_text (s : string) :
  is_upper_alnum s = true -> Postgres.text s = true.
Proof.
  unfold is_upper_alnum, Postgres.text. intros H. apply negb_true_iff.
  apply existsb_false_forall. intros c Hc.
  rewrite forallb_forall in H. specialize (H c Hc).
  destruct (Ascii.eqb "000" c) eqn:E; [|reflexivity].
  apply Ascii.eqb_eq in E. subst c. discriminate H.
Qed.

(** What holds of C1 on the handler: a valid signup without a referral
    code, with an email, an id and a generated code that the table does
    not have yet and with an email and a name that the store takes as
    text values, succeeds and adds one row, so that the count grows by
    one; its code is made of upper-case letters and digits and has as
    many of them as the draw has fraction digits, up to eight. *)
Lemma signup_without_referral (e : env) (request : json_body)
    (data : WaitlistData) (ds : list ascii) (d : db) :
  safeParse isEmail request = ParseSuccess data ->
  Js.truthy (data_referralCode data) = false ->
  ~ on_waitlist (rows d) (data_email data) ->
  (forall r, In r (rows d) -> id r <> uuid e) ->
  ~ code_known (rows d) (generateUniqueCode e) ->
  Postgres.text (data_email data) = true ->
  Postgres.optional_text (data_name data) = true ->
  fraction_digits (random_text e) = Some ds ->
  fst (POST isEmail e request d) = joined (Some (generateUniqueCode e))
  /\ is_upper_alnum (generateUniqueCode e) = true
  /\ String.length (generateUniqueCode e) = Nat.min 8 (length ds)
  /\ payload (fst (CountRoute.GET (snd (POST isEmail e request d))))
     = Count (S (length (rows d))).
Proof.
  intros V T F Hid Hcode Hem Hnm Hds.
  destruct (generateUniqueCode_format e ds Hds) as [Hfmt Hlen].
  assert (A : prisma.accepts (rows d) (new_row e data None) = true).
  { apply (accepts_fresh _ _ (generateUniqueCode e)); simpl; trivial.
    - intros x Hx E. apply F. now exists x.
    - intros x Hx E. apply Hcode. now exists x.
    - discriminate.
    - unfold Postgres.row. cbn [email name referralCode new_row].
      rewrite Hem, Hnm. cbn. now apply upper_alnum_text. }
  rewrite (signup_inserts_unreferred e request data d V T F A).
  repeat split; trivial.
  cbn. rewrite length_app. cbn. f_equal. lia.
Qed.

Lemma referrals_of_insert (s r : Subscriber) (t : list Subscriber) :
  referredBy r = Some (id s) ->
  prisma.referrals_of s (t ++ [r]) = (prisma.referrals_of s t ++ [r])%list.
Proof.
  intros H. unfold prisma.referrals_of. rewrite List.filter_app. simpl.
  unfold prisma.referred_by. rewrite H. simpl.
  now rewrite String.eqb_refl.
Qed.

(** C7, as the handlers have it.  Let a valid signup carry the code, of
    3 to 20 characters, of a subscriber S of a table with unique codes,
    and let it succeed.  Then it adds one row, which has the email of the
    request and the id of S as its referrer; the statistics of the code of
    S, which counted the rows referred by S before, count exactly one more
    afterwards, and their list includes an entry with the masked email of
    the new subscriber. *)
Theorem referred_signup_links_and_counts (e : env) (request : json_body)
    (data : WaitlistData) (c : string) (s : Subscriber) (d : db) :
  safeParse isEmail request = ParseSuccess data ->
  data_referralCode data = Some c ->
  well_shaped (Some c) ->
  codes_unique (rows d) -> In s (rows d) -> referralCode s = Some c ->
  success (fst (POST isEmail e request d)) = true ->
  let d' := snd (POST isEmail e request d) in
  let n := length (prisma.referrals_of s (rows d)) in
  exists (r : Subscriber) (l0 l1 : list ReferralEntry),
    rows d' = (rows d ++ [r])%list
    /\ email r = data_email data
    /\ referredBy r = Some (id s)
    /\ payload (fst (ReferralsRoute.GET (Some c) d)) = Stats n l0
    /\ payload (fst (ReferralsRoute.GET (Some c) d')) = Stats (S n) l1
    /\ exists x, In x l1 /\ entry_email x = mask_email (data_email data).
Proof.
  intros V Hc W U Hs Hcs Hok d' n.
  assert (Hne : c <> "").
  { intros ->. simpl in W. lia. }
  pose proof (find_code_unique (rows d) c s U Hs Hcs) as Hfind.
  assert (Run : d' = {| rows := rows d ++ [new_row e data (Some (id s))];
                        queries := queries d' |}).
  { subst d'. revert Hok. rewrite (POST_steps isEmail e request data d V).
    cbn zeta.
    destruct (find (prisma.has_email _) (rows d)); [discriminate|].
    rewrite Hc, (truthy_nonempty c Hne). cbn [Js.narrowed]. rewrite Hfind.
    unfold try_catch. rewrite insert_run. cbn [rows sent].
    destruct (prisma.accepts _ _); [reflexivity | discriminate]. }
  exists (new_row e data (Some (id s))).
  exists (map ReferralsRoute.entry (prisma.referrals_of s (rows d))).
  exists (map ReferralsRoute.entry
            (prisma.referrals_of s (rows d)
             ++ [new_row e data (Some (id s))])).
  rewrite Run. cbn [rows].
  split; [reflexivity|]. split; [reflexivity|]. split; [reflexivity|].
  rewrite !GET_steps by exact W. cbn [fst rows].
  rewrite (find_app_some _ _ _ _ Hfind), Hfind.
  rewrite referrals_of_insert by reflexivity.
  unfold ReferralsRoute.stats. cbn [payload].
  split; [reflexivity|]. split.
  - subst n. rewrite length_app. cbn. f_equal. lia.
  - exists (ReferralsRoute.entry (new_row e data (Some (id s)))).
    split; [|reflexivity].
    apply in_map, in_or_app. right. now left.
Qed.

End Inserting.

(** ** What the signup schema checks *)

Section Validation.

Import WaitlistRoute.

Variable isEmail : string -> bool.

Lemma optional_string_field_ok (v : option jsval) :
  (exists o, optional_string_field v = inl o) <-> string_or_absent v.
Proof.
  unfold string_or_absent. destruct v as [[| | |s|]|]; simpl; split;
    try (intros [o H]; discriminate);
    try (intros [H|[s' H]]; discriminate); eauto.
Qed.

Lemma email_field_ok (v : option jsval) :
  (exists s, email_field isEmail v = inl s)
  <-> exists s, v = Some (VStr s) /\ isEmail s = true.
Proof.
  destruct v as [[| | |s|]|]; simpl; split;
    try (intros [s' H]; discriminate);
    try (intros [s' [H _]]; discriminate).
  - destruct (isEmail s) eqn:E; [eauto | intros [s' H]; discriminate].
  - intros [s' [[= <-] E]]. rewrite E. eauto.
Qed.

(** The schema takes a body exactly when its [email] is a string that
    passes the format check and its [name] and [referralCode] are strings
    or absent; no length enters. *)
Lemma waitlistSchema_accepts (fields : gmap string jsval) :
  (exists data, waitlistSchema isEmail fields = ParseSuccess data)
  <-> (exists s, fields !! "email" = Some (VStr s) /\ isEmail s = true)
      /\ string_or_absent (fields !! "name")
      /\ string_or_absent (fields !! "referralCode").
Proof.
  rewrite <- email_field_ok, <- !optional_string_field_ok.
  unfold waitlistSchema.
  destruct (email_field isEmail (fields !! "email")) as [s|ie];
    destruct (optional_string_field (fields !! "name")) as [n|ine];
    destruct (optional_string_field (fields !! "referralCode")) as [c|ic];
    split;
    try (intros [data H]; discriminate);
    try (intros [[? H] _]; discriminate);
    try (intros [_ [[? H] _]]; discriminate);
    try (intros [_ [_ [? H]]]; discriminate);
    eauto 6.
Qed.

(** A body that is an object and fails the schema is answered with the
    validation failure and its field errors, and nothing is sent to the
    table. *)
Lemma POST_validation_failure (e : env) (fields : gmap string jsval)
    (errs : list (string * list issue)) (d : db) :
  waitlistSchema isEmail fields = ParseFailure errs ->
  POST isEmail e (JObject fields) d = (validation_failed errs, d).
Proof.
  intros H. unfold POST, try_catch, bind, request_json, ret, safeParse.
  now rewrite H.
Qed.

(** The queries of one signup: the email lookup comes first, a referral
    lookup only right after it, and the insert last. *)
Lemma POST_query_order (e : env) (request : json_body) (d : db) :
  exists qs,
    queries (snd (POST isEmail e request d)) = (queries d ++ qs)%list
    /\ (qs = []
        \/ exists em, qs = [FindUniqueByEmail em]
           \/ (exists c, qs = [FindUniqueByEmail em;
                               FindUniqueByReferralCode c])
           \/ qs = [FindUniqueByEmail em; CreateSubscriber em]
           \/ (exists c, qs = [FindUniqueByEmail em;
                               FindUniqueByReferralCode c;
                               CreateSubscriber em])).
Proof.
  destruct (safeParse isEmail request) as [data|errs] eqn:V.
  - rewrite (POST_steps isEmail e request data d V). cbn zeta.
    destruct (find (prisma.has_email _) (rows d)).
    { exists [FindUniqueByEmail (data_email data)]. split; [reflexivity|].
      right. exists (data_email data). now left. }
    destruct (Js.truthy (data_referralCode data)).
    + destruct (find (prisma.has_referralCode _) (rows d)).
      * unfold try_catch. rewrite insert_run. cbn [rows sent].
        eexists. split.
        { destruct (prisma.accepts _ _); cbn [snd queries sent];
            rewrite <- !app_assoc; reflexivity. }
        right. exists (data_email data). right. right. right. eauto.
      * eexists. split; [cbn; rewrite <- app_assoc; reflexivity|].
        right. exists (data_email data). right. left. eauto.
    + unfold try_catch. rewrite insert_run. cbn [rows sent].
      eexists. split.
      { destruct (prisma.accepts _ _); cbn [snd queries sent];
          rewrite <- !app_assoc; reflexivity. }
      right. exists (data_email data). right. right. now left.
  - exists []. split; [|now left]. rewrite app_nil_r.
    unfold POST, try_catch, bind, request_json, ret, throw.
    destruct request; try reflexivity; now rewrite V.
Qed.

(** The rows of the table after a signup: a failure leaves them as they
    were, and a success appends the one row that the table accepted. *)
Lemma POST_outcome (e : env) (request : json_body) (d : db) :
  (success (fst (POST isEmail e request d)) = false
   /\ rows (snd (POST isEmail e request d)) = rows d)
  \/ (exists data ref,
        fst (POST isEmail e request d)
        = joined (Some (generateUniqueCode e))
        /\ prisma.accepts (rows d) (new_row e data ref) = true
        /\ rows (snd (POST isEmail e request d))
           = (rows d ++ [new_row e data ref])%list).
Proof.
  destruct (safeParse isEmail request) as [data|errs] eqn:V.
  - rewrite (POST_steps isEmail e request data d V). cbn zeta.
    destruct (find (prisma.has_email _) (rows d)); [now left|].
    destruct (Js.truthy (data_referralCode data)).
    + destruct (find (prisma.has_referralCode _) (rows d)) as [r|];
        [|left; now destruct (Postgres.text _)].
      unfold try_catch. rewrite insert_run. cbn [rows sent].
      destruct (prisma.accepts _ _) eqn:A; [|now left].
      right. exists data, (Some (id r)). now rewrite A.
    + unfold try_catch. rewrite insert_run. cbn [rows sent].
      destruct (prisma.accepts _ _) eqn:A; [|now left].
      right. exists data, None. now rewrite A.
  - left. unfold POST, try_catch, bind, request_json, ret, throw.
    destruct request; try (now split); now rewrite V.
Qed.

(** Signups keep the table one that the store can hold. *)
Lemma POST_keeps_table (e : env) (request : json_body) (d : db) :
  Postgres.table (rows d) ->
  Postgres.table (rows (snd (POST isEmail e request d))).
Proof.
  intros T.
  destruct (POST_outcome e request d) as [[_ ->]|[data [ref [_ [A ->]]]]];
    [exact T | now apply table_insert].
Qed.

(** Unique codes are an invariant of the table under signup. *)
Lemma POST_keeps_codes_unique (e : env) (request : json_body) (d : db) :
  codes_unique (rows d) ->
  codes_unique (rows (snd (POST isEmail e request d))).
Proof.
  intros U.
  destruct (POST_outcome e request d) as [[_ ->]|[data [ref [_ [A ->]]]]];
    [exact U | now apply codes_unique_insert].
Qed.

End Validation.

(** ** Worked examples *)

(** Decision procedures for the side conditions on a concrete table. *)

Lemma off_waitlist_by_scan (t : list Subscriber) (em : string) :
  existsb (prisma.has_email em) t = false -> ~ on_waitlist t em.
Proof.
  intros H [r [Hr E]].
  assert (X : existsb (prisma.has_email em) t = true).
  { apply existsb_exists. exists r. split; [exact Hr|].
    now apply String.eqb_eq. }
  congruence.
Qed.

Lemma on_waitlist_by_scan (t : list Subscriber) (em : string) :
  existsb (prisma.has_email em) t = true -> on_waitlist t em.
Proof.
  intros H. apply existsb_exists in H as [r [Hr E]].
  exists r. split; [exact Hr|]. now apply String.eqb_eq.
Qed.

Lemma code_unknown_by_scan (t : list Subscriber) (c : string) :
  existsb (prisma.has_referralCode c) t = false -> ~ code_known t c.
Proof.
  intros H [r [Hr E]].
  assert (X : existsb (prisma.has_referralCode c) t = true).
  { apply existsb_exists. exists r. split; [exact Hr|].
    now apply opt_string_eqb_eq. }
  congruence.
Qed.

Lemma id_free_by_scan (t : list Subscriber) (i : string) :
  existsb (prisma.has_id i) t = false -> forall r, In r t -> id r <> i.
Proof.
  intros H r Hr E.
  assert (X : existsb (prisma.has_id i) t = true).
  { apply existsb_exists. exists r. split; [exact Hr|].
    now apply String.eqb_eq. }
  congruence.
Qed.

Lemma unreferred_by_scan (t : list Subscriber) (i : string) :
  existsb (prisma.referred_by i) t = false ->
  forall r, In r t -> referredBy r <> Some i.
Proof.
  intros H r Hr E.
  assert (X : existsb (prisma.referred_by i) t = true).
  { apply existsb_exists. exists r. split; [exact Hr|].
    now apply opt_string_eqb_eq. }
  congruence.
Qed.

Lemma seeded_codes_unique : codes_unique (rows Sample.seeded).
Proof.
  intros r1 r2 c H1 H2 C1 C2. simpl in H1, H2.
  destruct H1 as [<-|[<-|[]]], H2 as [<-|[<-|[]]]; simpl in *; congruence.
Qed.

(** The draw one half reads 0.i: its only digit is worth 18 of 36. *)
Example half_in_base_36 :
  fraction_digits "0.i" = Some ["i"%char] /\ (2 * radix36 "i" = 36 ^ 1)%Z.
Proof. split; reflexivity. Qed.

Example after_half_rows :
  rows Sample.after_half
  = [{| id := "id-ann"; email := "ann@example.com"; name := Some "Ann";
        createdAt := 10; updatedAt := 10; referralCode := Some "I";
        referredBy := None; verified := false |}].
Proof. vm_compute. reflexivity. Qed.

Example after_ann_rows :
  rows Sample.after_ann
  = [{| id := "id-ann"; email := "ann@example.com"; name := Some "Ann";
        createdAt := 10; updatedAt := 10; referralCode := Some "K3J9X2M7";
        referredBy := None; verified := false |}].
Proof. vm_compute. reflexivity. Qed.

Lemma sample_request_parses (isEmail : string -> bool) (em : string)
    (nm code : option string) :
  isEmail em = true ->
  WaitlistRoute.safeParse isEmail (Sample.request em nm code)
  = ParseSuccess (Sample.parsed em nm code).
Proof.
  intros H. unfold WaitlistRoute.safeParse, Sample.request, Sample.parsed,
    WaitlistRoute.waitlistSchema.
  destruct nm as [n|], code as [c|];
    repeat (rewrite lookup_insert_eq || rewrite lookup_insert_ne by done
            || rewrite lookup_empty);
    simpl; now rewrite H.
Qed.

(** C1 fails on the handler, against the comment of the generator (a code
    of length 8).  When the draw is one half, whose text in base 36 is 0.i,
    a valid first signup without a referral code succeeds and its code is
    the single character I. *)
Theorem signup_code_of_one_character (isEmail : string -> bool) :
  isEmail "ann@example.com" = true ->
  let answer :=
    fst (WaitlistRoute.POST isEmail (Sample.draw "0.i" "id-ann" 10)
           (Sample.request "ann@example.com" (Some "Ann") None)
           Sample.empty) in
  status answer = 200
  /\ payload answer = ReferralCode (Some "I")
  /\ String.length (WaitlistRoute.generateUniqueCode
                      (Sample.draw "0.i" "id-ann" 10)) = 1.
Proof.
  intros H answer. subst answer.
  rewrite (signup_inserts_unreferred isEmail _ _
             (Sample.parsed "ann@example.com" (Some "Ann") None));
    [ repeat split
    | now apply sample_request_parses
    | reflexivity
    | now apply off_waitlist_by_scan
    | reflexivity ].
Qed.

Lemma signup_code_of_one_character_witness :
  let answer :=
    fst (WaitlistRoute.POST Sample.plausible_email
           (Sample.draw "0.i" "id-ann" 10)
           (Sample.request "ann@example.com" (Some "Ann") None)
           Sample.empty) in
  status answer = 200
  /\ payload answer = ReferralCode (Some "I")
  /\ String.length (WaitlistRoute.generateUniqueCode
                      (Sample.draw "0.i" "id-ann" 10)) = 1.
Proof.
  apply (signup_code_of_one_character Sample.plausible_email).
  vm_compute. reflexivity.
Defined.

(** C3 fails on the handler, against the schema the route imports and the
    form uses (a name of 1 to 100 characters).  A signup whose name is the
    empty string is not answered with the validation failure: it succeeds
    and a row with that name is created. *)
Theorem empty_name_passes_validation (isEmail : string -> bool) :
  isEmail "user@example.com" = true ->
  let run :=
    WaitlistRoute.POST isEmail (Sample.draw "0.k3j9x2m7qa4" "id-new" 10)
      (Sample.request "user@example.com" (Some "") None) Sample.empty in
  status (fst run) = 200
  /\ success (fst run) = true
  /\ (forall errs, fst run <> WaitlistRoute.validation_failed errs)
  /\ map name (rows (snd run)) = [Some ""].
Proof.
  intros H run. subst run.
  rewrite (signup_inserts_unreferred isEmail _ _
             (Sample.parsed "user@example.com" (Some "") None));
    [ repeat split; discriminate
    | now apply sample_request_parses
    | reflexivity
    | now apply off_waitlist_by_scan
    | reflexivity ].
Qed.

Lemma empty_name_passes_validation_witness :
  let run :=
    WaitlistRoute.POST Sample.plausible_email
      (Sample.draw "0.k3j9x2m7qa4" "id-new" 10)
      (Sample.request "user@example.com" (Some "") None) Sample.empty in
  status (fst run) = 200
  /\ success (fst run) = true
  /\ (forall errs, fst run <> WaitlistRoute.validation_failed errs)
  /\ map name (rows (snd run)) = [Some ""].
Proof.
  apply (empty_name_passes_validation Sample.plausible_email).
  vm_compute. reflexivity.
Defined.

Lemma mask_email_keeps_two_and_stars_witness :
  let d := Sample.referring in
  let l := [ {| date := 3; entry_email := "jo*******@example.com" |};
             {| date := 4; entry_email := "ab@example.com" |} ] in
  (exists s,
     In s (rows d) /\ referralCode s = Some "USER1CODE"
     /\ length l = length (prisma.referrals_of s (rows d))
     /\ forall i ref local domain,
          nth_error (prisma.referrals_of s (rows d)) i = Some ref ->
          email ref = local ++ "@" ++ domain ->
          plain local -> no_at domain ->
          exists x,
            nth_error l i = Some x
            /\ date x = createdAt ref
            /\ entry_email x = spec_mask local domain)
  /\ mask_email "johnsmith@example.com" = "jo*******@example.com"
  /\ mask_email "ab@example.com" = "ab@example.com".
Proof.
  apply (mask_email_keeps_two_and_stars (Some "USER1CODE") Sample.referring 2
           [ {| date := 3; entry_email := "jo*******@example.com" |};
             {| date := 4; entry_email := "ab@example.com" |} ]).
  vm_compute. reflexivity.
Defined.

(** C4 as stated does not hold: on the seeded table, a signup with the
    email of user1 and a referral code that no row holds is answered with
    the duplicate-email failure, not with the invalid-referral-code one,
    and the only query sent is the email lookup. *)
Lemma referral_lookup_is_not_first :
  let request :=
    Sample.request "user1@example.com" (Some "John") (Some "NOSUCHCODE") in
  let run := Sample.signup (Sample.draw "0.k3j9x2m7qa4" "id-new" 10)
               request Sample.seeded in
  ~ code_known (rows Sample.seeded) "NOSUCHCODE"
  /\ on_waitlist (rows Sample.seeded) "user1@example.com"
  /\ fst run = WaitlistRoute.duplicate_email
  /\ fst run <> WaitlistRoute.invalid_referral_code
  /\ queries (snd run) = [FindUniqueByEmail "user1@example.com"].
Proof.
  split; [now apply code_unknown_by_scan|].
  split; [now apply on_waitlist_by_scan|].
  split; [vm_compute; reflexivity|].
  split; [vm_compute; discriminate | vm_compute; reflexivity].
Qed.

Lemma email_check_precedes_referral_lookup_witness :
  let e := Sample.draw "0.k3j9x2m7qa4" "id-new" 10 in
  let request :=
    Sample.request "user1@example.com" (Some "John") (Some "NOSUCHCODE") in
  fst (WaitlistRoute.POST Sample.plausible_email e request Sample.seeded)
  = WaitlistRoute.duplicate_email
  /\ fst (WaitlistRoute.POST Sample.plausible_email e request Sample.seeded)
     <> WaitlistRoute.invalid_referral_code
  /\ queries
       (snd (WaitlistRoute.POST Sample.plausible_email e request
               Sample.seeded))
     = (queries Sample.seeded ++ [FindUniqueByEmail "user1@example.com"])%list.
Proof.
  apply (email_check_precedes_referral_lookup Sample.plausible_email
           (Sample.draw "0.k3j9x2m7qa4" "id-new" 10)
           (Sample.request "user1@example.com" (Some "John")
              (Some "NOSUCHCODE"))
           (Sample.parsed "user1@example.com" (Some "John")
              (Some "NOSUCHCODE"))
           "NOSUCHCODE" Sample.seeded).
  - vm_compute. reflexivity.
  - reflexivity.
  - apply code_unknown_by_scan. reflexivity.
  - apply on_waitlist_by_scan. reflexivity.
Defined.

Lemma duplicate_email_leaves_store_witness :
  let e := Sample.draw "0.k3j9x2m7qa4" "id-new" 10 in
  let request := Sample.request "referred1@example.com" None None in
  let run := WaitlistRoute.POST Sample.plausible_email e request
               Sample.seeded in
  fst run = WaitlistRoute.duplicate_email
  /\ status (fst run) = 400
  /\ rows (snd run) = rows Sample.seeded
  /\ payload (fst (CountRoute.GET (snd run)))
     = payload (fst (CountRoute.GET Sample.seeded)).
Proof.
  apply (duplicate_email_leaves_store Sample.plausible_email
           (Sample.draw "0.k3j9x2m7qa4" "id-new" 10)
           (Sample.request "referred1@example.com" None None)
           (Sample.parsed "referred1@example.com" None None)
           Sample.seeded).
  - vm_compute. reflexivity.
  - apply on_waitlist_by_scan. reflexivity.
Defined.

(** C6 as stated does not hold, in three ways.  A signup with an unknown
    referral code and an email already in the table fails as a duplicate
    email; a signup whose referral code is the empty string, which no row
    holds, is treated as one without a code: it succeeds and a row is
    created; and a signup with a new email whose referral code has a NUL
    character in it, which no row holds, is answered with the server
    error, status 500, because the store refuses the lookup. *)
Lemma unknown_code_not_always_invalid :
  let e := Sample.draw "0.k3j9x2m7qa4" "id-new" 10 in
  let taken :=
    Sample.signup e
      (Sample.request "referred1@example.com" None (Some "FRIEND42"))
      Sample.seeded in
  let blank :=
    Sample.signup e (Sample.request "new@example.com" None (Some ""))
      Sample.seeded in
  let refused :=
    Sample.signup e
      (Sample.request "new@example.com" None (Some Sample.nul_code))
      Sample.seeded in
  (~ code_known (rows Sample.seeded) "FRIEND42"
   /\ fst taken <> WaitlistRoute.invalid_referral_code
   /\ fst taken = WaitlistRoute.duplicate_email)
  /\ (~ code_known (rows Sample.seeded) ""
      /\ fst blank <> WaitlistRoute.invalid_referral_code
      /\ fst blank = WaitlistRoute.joined (Some "K3J9X2M7")
      /\ length (rows (snd blank)) = S (length (rows Sample.seeded)))
  /\ (~ code_known (rows Sample.seeded) Sample.nul_code
      /\ ~ on_waitlist (rows Sample.seeded) "new@example.com"
      /\ fst refused <> WaitlistRoute.invalid_referral_code
      /\ fst refused = WaitlistRoute.server_error
      /\ status (fst refused) = 500).
Proof.
  split; [|split].
  - split; [now apply code_unknown_by_scan|].
    split; [vm_compute; discriminate | vm_compute; reflexivity].
  - split; [now apply code_unknown_by_scan|].
    split; [vm_compute; discriminate|].
    split; vm_compute; reflexivity.
  - split; [now apply code_unknown_by_scan|].
    split; [now apply off_waitlist_by_scan|].
    split; [vm_compute; discriminate|].
    split; vm_compute; reflexivity.
Qed.

Lemma unknown_referral_code_rejected_witness :
  let e := Sample.draw "0.k3j9x2m7qa4" "id-new" 10 in
  let request := Sample.request "new@example.com" None (Some "FRIEND42") in
  fst (WaitlistRoute.POST Sample.plausible_email e request Sample.seeded)
  = WaitlistRoute.invalid_referral_code
  /\ status (fst (WaitlistRoute.POST Sample.plausible_email e request
                    Sample.seeded)) = 400
  /\ rows (snd (WaitlistRoute.POST Sample.plausible_email e request
                  Sample.seeded))
     = rows Sample.seeded.
Proof.
  apply (unknown_referral_code_rejected Sample.plausible_email
           (Sample.draw "0.k3j9x2m7qa4" "id-new" 10)
           (Sample.request "new@example.com" None (Some "FRIEND42"))
           (Sample.parsed "new@example.com" None (Some "FRIEND42"))
           "FRIEND42" Sample.seeded).
  - vm_compute. reflexivity.
  - reflexivity.
  - discriminate.
  - reflexivity.
  - apply code_unknown_by_scan. reflexivity.
  - apply off_waitlist_by_scan. reflexivity.
Defined.

(** C7 as stated does not hold, in three ways.  Ann holds the code
    K3J9X2M7; a signup with a new valid email that carries her code, and
    whose own draw begins with the same eight digits, generates her code
    again: the insert is rejected, the answer is the server error, no row
    is created, and her statistics show no referral before and none after.
    A signup with a new valid email that carries the code of user1 and a
    name with a NUL character in it is refused by the store in the same
    way.  And when Ann holds the code I, a signup that carries it succeeds
    with her id as its referrer, but the statistics route answers the
    lookup of her code with the format failure. *)
Lemma referred_signup_not_always_counted :
  let collide :=
    Sample.signup (Sample.draw "0.k3j9x2m7zz1" "id-bob" 20)
      (Sample.request "bob@example.com" (Some "Bob") (Some "K3J9X2M7"))
      Sample.after_ann in
  let refused :=
    Sample.signup (Sample.draw "0.z8y7x6w5v4u" "id-bob" 20)
      (Sample.request "bob@example.com" (Some Sample.nul_name)
         (Some "USER1CODE"))
      Sample.seeded in
  let short :=
    Sample.signup (Sample.draw "0.z8y7x6w5v4u" "id-bob" 20)
      (Sample.request "bob@example.com" (Some "Bob") (Some "I"))
      Sample.after_half in
  (code_known (rows Sample.after_ann) "K3J9X2M7"
   /\ ~ on_waitlist (rows Sample.after_ann) "bob@example.com"
   /\ fst collide = WaitlistRoute.server_error
   /\ rows (snd collide) = rows Sample.after_ann
   /\ payload (fst (ReferralsRoute.GET (Some "K3J9X2M7") Sample.after_ann))
      = Stats 0 []
   /\ payload (fst (ReferralsRoute.GET (Some "K3J9X2M7") (snd collide)))
      = Stats 0 [])
  /\ (code_known (rows Sample.seeded) "USER1CODE"
      /\ ~ on_waitlist (rows Sample.seeded) "bob@example.com"
      /\ fst refused = WaitlistRoute.server_error
      /\ rows (snd refused) = rows Sample.seeded
      /\ payload (fst (ReferralsRoute.GET (Some "USER1CODE") (snd refused)))
         = payload (fst (ReferralsRoute.GET (Some "USER1CODE")
                           Sample.seeded)))
  /\ (code_known (rows Sample.after_half) "I"
      /\ fst short = WaitlistRoute.joined (Some "Z8Y7X6W5")
      /\ map referredBy (rows (snd short)) = [None; Some "id-ann"]
      /\ fst (ReferralsRoute.GET (Some "I") (snd short))
         = ReferralsRoute.invalid_format).
Proof.
  split; [|split].
  - split.
    { eexists. split; [left; reflexivity | vm_compute; reflexivity]. }
    split; [now apply off_waitlist_by_scan|].
    repeat split; vm_compute; reflexivity.
  - split.
    { eexists. split; [left; reflexivity | vm_compute; reflexivity]. }
    split; [now apply off_waitlist_by_scan|].
    repeat split; vm_compute; reflexivity.
  - split.
    { eexists. split; [left; reflexivity | vm_compute; reflexivity]. }
    repeat split; vm_compute; reflexivity.
Qed.

Lemma referred_signup_links_and_counts_witness :
  let e := Sample.draw "0.z8y7x6w5v4u" "id-bob" 20 in
  let request :=
    Sample.request "bob@example.com" (Some "Bob") (Some "USER1CODE") in
  let d' := snd (WaitlistRoute.POST Sample.plausible_email e request
                   Sample.seeded) in
  exists (r : Subscriber) (l0 l1 : list ReferralEntry),
    rows d' = (rows Sample.seeded ++ [r])%list
    /\ email r = "bob@example.com"
    /\ referredBy r = Some "id-user1"
    /\ payload (fst (ReferralsRoute.GET (Some "USER1CODE") Sample.seeded))
       = Stats 1 l0
    /\ payload (fst (ReferralsRoute.GET (Some "USER1CODE") d'))
       = Stats 2 l1
    /\ exists x, In x l1 /\ entry_email x = mask_email "bob@example.com".
Proof.
  apply (referred_signup_links_and_counts Sample.plausible_email
           (Sample.draw "0.z8y7x6w5v4u" "id-bob" 20)
           (Sample.request "bob@example.com" (Some "Bob") (Some "USER1CODE"))
           (Sample.parsed "bob@example.com" (Some "Bob") (Some "USER1CODE"))
           "USER1CODE" Sample.user1 Sample.seeded).
  - vm_compute. reflexivity.
  - reflexivity.
  - simpl. lia.
  - exact seeded_codes_unique.
  - simpl. now left.
  - reflexivity.
  - vm_compute. reflexivity.
Defined.

(** C8 as stated does not hold: nothing is trimmed.  A code of five
    characters of which one is left after trimming is taken past the schema
    and looked up; a code of twenty-two characters of which twenty are left
    after trimming is answered with the format failure. *)
Lemma code_is_not_trimmed :
  (String.length (spec_trim "  A  ") = 1
   /\ fst (ReferralsRoute.GET (Some "  A  ") Sample.seeded)
      <> ReferralsRoute.invalid_format
   /\ queries (snd (ReferralsRoute.GET (Some "  A  ") Sample.seeded))
      = [FindUniqueByReferralCode "  A  "])
  /\ (String.length (spec_trim Sample.twenty_two) = 20
      /\ ReferralsRoute.GET (Some Sample.twenty_two) Sample.seeded
         = (ReferralsRoute.invalid_format, Sample.seeded)).
Proof.
  split.
  - split; [reflexivity|].
    split; [vm_compute; discriminate | vm_compute; reflexivity].
  - split; [reflexivity | vm_compute; reflexivity].
Qed.

Lemma code_shape_is_checked_untrimmed_witness :
  (fst (ReferralsRoute.GET (Some "USER1CODE") Sample.seeded)
   <> ReferralsRoute.invalid_format
   /\ snd (ReferralsRoute.GET (Some "USER1CODE") Sample.seeded)
      = sent (FindUniqueByReferralCode "USER1CODE") Sample.seeded)
  /\ (ReferralsRoute.GET (Some "AB") Sample.seeded
      = (ReferralsRoute.invalid_format, Sample.seeded)
      /\ status ReferralsRoute.invalid_format = 400).
Proof.
  split.
  - apply (proj1 (code_shape_is_checked_untrimmed (Some "USER1CODE")
                    Sample.seeded)).
    simpl. lia.
  - apply (proj2 (code_shape_is_checked_untrimmed (Some "AB") Sample.seeded)).
    simpl. lia.
Defined.

Lemma unknown_code_is_not_found_witness :
  fst (ReferralsRoute.GET (Some "NOSUCHCODE") Sample.seeded)
  = ReferralsRoute.not_found
  /\ status (fst (ReferralsRoute.GET (Some "NOSUCHCODE") Sample.seeded)) = 404
  /\ payload (fst (ReferralsRoute.GET (Some "NOSUCHCODE") Sample.seeded))
     = NoPayload
  /\ rows (snd (ReferralsRoute.GET (Some "NOSUCHCODE") Sample.seeded))
     = rows Sample.seeded.
Proof.
  apply (unknown_code_is_not_found "NOSUCHCODE" Sample.seeded).
  - simpl. lia.
  - reflexivity.
  - apply code_unknown_by_scan. reflexivity.
Defined.

(** C9 as stated does not hold: a code of five characters, the third of
    which is the NUL character, passes the schema and is held by no row of
    the seeded table, but the store refuses the lookup, and the answer is
    the server error, status 500, not the not-found failure. *)
Lemma refused_code_is_not_not_found :
  let run := ReferralsRoute.GET (Some Sample.nul_code) Sample.seeded in
  well_shaped (Some Sample.nul_code)
  /\ ~ code_known (rows Sample.seeded) Sample.nul_code
  /\ fst run <> ReferralsRoute.not_found
  /\ fst run = ReferralsRoute.server_error
  /\ status (fst run) = 500
  /\ queries (snd run) = [FindUniqueByReferralCode Sample.nul_code].
Proof.
  split; [simpl; lia|].
  split; [now apply code_unknown_by_scan|].
  split; [vm_compute; discriminate|].
  repeat split; vm_compute; reflexivity.
Qed.

(** C10 as stated does not hold.  After the signup whose draw is one half,
    Ann is a subscriber whose code, the single character I, nobody has
    used; the lookup of that code does not succeed: it is answered with the
    format failure, status 400, before any query. *)
Lemma short_code_has_no_stats :
  code_known (rows Sample.after_half) "I"
  /\ (forall r, In r (rows Sample.after_half) ->
                referredBy r <> Some "id-ann")
  /\ ReferralsRoute.GET (Some "I") Sample.after_half
     = (ReferralsRoute.invalid_format, Sample.after_half)
  /\ status (fst (ReferralsRoute.GET (Some "I") Sample.after_half)) = 400
  /\ payload (fst (ReferralsRoute.GET (Some "I") Sample.after_half))
     <> Stats 0 [].
Proof.
  split.
  { eexists. split; [left; reflexivity | vm_compute; reflexivity]. }
  split; [now apply unreferred_by_scan|].
  split; [vm_compute; reflexivity|].
  split; [vm_compute; reflexivity | vm_compute; discriminate].
Qed.

Lemma unused_code_has_empty_stats_witness :
  fst (ReferralsRoute.GET (Some "REFERRED1") Sample.seeded)
  <> ReferralsRoute.not_found
  /\ status (fst (ReferralsRoute.GET (Some "REFERRED1") Sample.seeded)) = 200
  /\ success (fst (ReferralsRoute.GET (Some "REFERRED1") Sample.seeded)) = true
  /\ payload (fst (ReferralsRoute.GET (Some "REFERRED1") Sample.seeded))
     = Stats 0 [].
Proof.
  apply (unused_code_has_empty_stats "REFERRED1" Sample.referred1
           Sample.seeded).
  - exact seeded_codes_unique.
  - simpl. right. now left.
  - reflexivity.
  - simpl. lia.
  - apply unreferred_by_scan. reflexivity.
Defined.


(** * Further properties of the code *)

(** ** The masking on arbitrary strings *)

Section MaskingAnyString.

Import Regex.

Lemma replace_first_unfold f (l : list ascii) :
  replace_first f l
  = match match_here l with
    | Some (start, rest, after) => (f start rest ++ after)%list
    | None =>
        match l with
        | [] => []
        | c :: l' => c :: replace_first f l'
        end
    end.
Proof. now destruct l. Qed.

Lemma star_then_at_split (s rest after : list ascii) :
  star_then_at s = Some (rest, after) ->
  s = (rest ++ after)%list /\ exists tl, after = "@"%char :: tl.
Proof.
  revert rest after. induction s as [|c s IH]; intros rest after; simpl;
    [discriminate|].
  destruct (dot c).
  - destruct (star_then_at s) as [[rest' after']|] eqn:E.
    + intros [= <- <-]. destruct (IH rest' after' eq_refl) as [-> H].
      now split.
    + destruct (is_at c) eqn:A; [|discriminate].
      intros [= <- <-]. split; [reflexivity|].
      apply Ascii.eqb_eq in A. subst c. now exists s.
  - destruct (is_at c) eqn:A; [|discriminate].
    intros [= <- <-]. split; [reflexivity|].
    apply Ascii.eqb_eq in A. subst c. now exists s.
Qed.

Lemma match_here_split (l start rest after : list ascii) :
  match_here l = Some (start, rest, after) ->
  l = (start ++ rest ++ after)%list /\ length start = 2
  /\ exists tl, after = "@"%char :: tl.
Proof.
  destruct l as [|c1 [|c2 s]]; simpl; try discriminate.
  destruct (dot c1 && dot c2); [|discriminate].
  destruct (star_then_at s) as [[rest' after']|] eqn:E; [|discriminate].
  intros [= <- <- <-]. destruct (star_then_at_split _ _ _ E) as [-> H].
  repeat split; trivial.
Qed.

Lemma Forall2_starred_refl (l : list ascii) : Forall2 starred l l.
Proof. induction l; constructor; trivial. now left. Qed.

Lemma Forall2_starred_stars (l : list ascii) :
  Forall2 starred l (Js.stars (length l)).
Proof. induction l; simpl; constructor; trivial. now right. Qed.

Lemma replace_first_starred (l : list ascii) :
  Forall2 starred l (replace_first mask_replacer l).
Proof.
  induction l as [|c l IH]; [constructor|].
  rewrite replace_first_unfold.
  destruct (match_here (c :: l)) as [[[start rest] after]|] eqn:M.
  - destruct (match_here_split _ _ _ _ M) as [-> _].
    unfold mask_replacer. rewrite <- app_assoc.
    apply Forall2_app; [apply Forall2_starred_refl|].
    apply Forall2_app;
      [apply Forall2_starred_stars | apply Forall2_starred_refl].
  - constructor; [now left | exact IH].
Qed.

(** The last [@] of a text that ends in a part without [@]. *)
Lemma last_at_split (u tl x d : list ascii) :
  (u ++ "@"%char :: tl = x ++ "@"%char :: d)%list ->
  existsb is_at d = false ->
  exists pre, ("@"%char :: tl = pre ++ "@"%char :: d
               /\ x = u ++ pre)%list.
Proof.
  intros E Hd. revert x E. induction u as [|a u IH]; intros x E.
  - exists x. now split.
  - destruct x as [|b x]; simpl in E.
    + injection E as -> E. exfalso.
      assert (X : existsb is_at d = true).
      { rewrite <- E. rewrite existsb_app. simpl.
        now rewrite orb_true_r. }
      congruence.
    + injection E as -> E. destruct (IH x E) as [pre [H1 H2]].
      exists pre. split; [exact H1 | now rewrite H2].
Qed.

Lemma replace_first_keeps_domain (x d : list ascii) :
  existsb is_at d = false ->
  exists y,
    replace_first mask_replacer (x ++ "@"%char :: d)
    = (y ++ "@"%char :: d)%list
    /\ length y = length x.
Proof.
  intros Hd. induction x as [|c x IH].
  - exists []. split; [|reflexivity]. now apply replace_first_at_head.
  - rewrite replace_first_unfold.
    destruct (match_here ((c :: x) ++ "@"%char :: d))
      as [[[start rest] after]|] eqn:M.
    + destruct (match_here_split _ _ _ _ M) as [E [_ [tl ->]]].
      rewrite app_assoc in E. symmetry in E.
      destruct (last_at_split _ _ _ _ E Hd) as [pre [H1 H2]].
      exists (start ++ Js.stars (length rest) ++ pre)%list. split.
      * unfold mask_replacer. rewrite H1. now rewrite <- !app_assoc.
      * rewrite H2. unfold Js.stars.
        rewrite !length_app, repeat_length. lia.
    + destruct IH as [y [H1 H2]]. exists (c :: y). simpl. split.
      * now rewrite H1.
      * now rewrite H2.
Qed.

End MaskingAnyString.

(** X1.  Whatever the stored email is, the email that the referral route
    returns has the same length and differs from it by stars only: each
    of its characters is the character of the stored email at that place
    or a star. *)
Theorem mask_email_only_writes_stars (ref : Subscriber) :
  Forall2 starred
    (list_ascii_of_string (email ref))
    (list_ascii_of_string (entry_email (ReferralsRoute.entry ref)))
  /\ String.length (entry_email (ReferralsRoute.entry ref))
     = String.length (email ref).
Proof.
  unfold ReferralsRoute.entry. cbn [entry_email]. unfold mask_email.
  rewrite list_ascii_of_string_of_list_ascii.
  pose proof (replace_first_starred (list_ascii_of_string (email ref))) as H.
  split; [exact H|].
  rewrite of_chars_length, <- chars_length. symmetry.
  eapply Forall2_length. exact H.
Qed.

(** X2.  For any text before the last [@], line breaks and further [@]
    included, the masking keeps the last [@] and all that follows it and
    does not change the length of what precedes it; and a string without
    any [@] is returned as it is. *)
Theorem mask_email_keeps_domain (before domain : string) :
  no_at domain ->
  (exists masked,
     mask_email (before ++ "@" ++ domain) = masked ++ "@" ++ domain
     /\ String.length masked = String.length before)
  /\ mask_email domain = domain.
Proof.
  intros Hd. split.
  - destruct (replace_first_keeps_domain (list_ascii_of_string before)
                (list_ascii_of_string domain) Hd) as [y [H1 H2]].
    exists (string_of_list_ascii y). split.
    + unfold mask_email. rewrite chars_app.
      change (list_ascii_of_string ("@" ++ domain))
        with ("@"%char :: list_ascii_of_string domain).
      rewrite H1, of_chars_app. simpl.
      now rewrite string_of_list_ascii_of_string.
    + now rewrite of_chars_length, H2, chars_length.
  - unfold mask_email. rewrite (replace_first_without_at _ _ Hd).
    apply string_of_list_ascii_of_string.
Qed.

Lemma mask_email_keeps_domain_witness :
  (exists masked,
     mask_email ("a@b.c" ++ "@" ++ "example.com")
     = masked ++ "@" ++ "example.com"
     /\ String.length masked = String.length "a@b.c")
  /\ mask_email "example.com" = "example.com".
Proof.
  apply (mask_email_keeps_domain "a@b.c" "example.com"). reflexivity.
Defined.

(** ** Tables that keep the constraints of the schema *)

Lemma existsb_has_id_false (t : list Subscriber) (i : string) :
  existsb (prisma.has_id i) t = false -> ~ In i (map id t).
Proof.
  intros H Hin. apply in_map_iff in Hin as [x [E Hx]].
  pose proof (id_free_by_scan t i H x Hx). congruence.
Qed.

Lemma existsb_has_email_false (t : list Subscriber) (em : string) :
  existsb (prisma.has_email em) t = false -> ~ In em (map email t).
Proof.
  intros H Hin. apply in_map_iff in Hin as [x [E Hx]].
  apply (off_waitlist_by_scan t em H). now exists x.
Qed.

Lemma NoDup_snoc {A} (l : list A) (a : A) :
  List.NoDup l -> ~ In a l -> List.NoDup (l ++ [a]).
Proof.
  intros N H. induction l as [|b l IH]; simpl.
  - constructor; [tauto | constructor].
  - inversion N as [|? ? Hb Nl]; subst. constructor.
    + rewrite in_app_iff. simpl. intros [X|[X|[]]]; [tauto|].
      subst. apply H. now left.
    + apply IH; [exact Nl|]. intros X. apply H. now right.
Qed.

Lemma referrers_earlier_snoc (t : list Subscriber) (r : Subscriber) :
  referrers_earlier t ->
  (forall i, referredBy r = Some i -> exists x, In x t /\ id x = i) ->
  referrers_earlier (t ++ [r]).
Proof.
  intros Ht Hr l1 r' l2 i E Hi.
  destruct l2 as [|z l2 _] using rev_ind.
  - apply app_inj_tail in E as [-> ->]. now apply Hr.
  - rewrite app_comm_cons, app_assoc in E.
    apply app_inj_tail in E as [E _]. exact (Ht l1 r' l2 i E Hi).
Qed.

(** The referrer of a row of such a table is a row of the table. *)
Lemma referrers_exist (t : list Subscriber) (r : Subscriber) (i : string) :
  referrers_earlier t -> In r t -> referredBy r = Some i ->
  exists x, In x t /\ id x = i.
Proof.
  intros Ht Hin Hi. apply in_split in Hin as [l1 [l2 ->]].
  destruct (Ht l1 r l2 i eq_refl Hi) as [x [Hx E]].
  exists x. split; [|exact E]. apply in_or_app. now left.
Qed.

Lemma same_id_same_row (t : list Subscriber) (r s : Subscriber) :
  List.NoDup (map id t) -> In r t -> In s t -> id r = id s -> r = s.
Proof.
  induction t as [|x t IH]; simpl; [tauto|].
  intros N Hr Hs E. inversion N as [|? ? Hx Nt]; subst.
  destruct Hr as [->|Hr], Hs as [->|Hs]; trivial.
  - destruct Hx. rewrite E. now apply in_map.
  - destruct Hx. rewrite <- E. now apply in_map.
  - now apply IH.
Qed.

Lemma accepts_parts (t : list Subscriber) (r : Subscriber) :
  prisma.accepts t r = true ->
  existsb (prisma.has_id (id r)) t = false
  /\ existsb (prisma.has_email (email r)) t = false
  /\ (forall i, referredBy r = Some i -> exists x, In x t /\ id x = i).
Proof.
  unfold prisma.accepts. rewrite !andb_true_iff, !negb_true_iff.
  intros [[[[H1 H2] _] H4] _]. repeat split; trivial.
  intros i Hi. rewrite Hi in H4. apply existsb_exists in H4 as [x [Hx E]].
  exists x. split; [exact Hx | now apply String.eqb_eq].
Qed.

Lemma consistent_insert (t : list Subscriber) (r : Subscriber) :
  consistent t -> prisma.accepts t r = true -> consistent (t ++ [r]).
Proof.
  intros (Nid & Nem & U & E) A.
  destruct (accepts_parts t r A) as (Hid & Hem & Href).
  repeat split.
  - rewrite map_app. apply NoDup_snoc; [exact Nid|].
    now apply existsb_has_id_false.
  - rewrite map_app. apply NoDup_snoc; [exact Nem|].
    now apply existsb_has_email_false.
  - now apply codes_unique_insert.
  - now apply referrers_earlier_snoc.
Qed.

Lemma consistent_nil : consistent [].
Proof.
  repeat split; try constructor.
  - intros r1 r2 c [].
  - intros [|x l1] r l2 i E; discriminate.
Qed.

(** ** Signup: validation, side effects and invariants *)

Section SignupMore.

Import WaitlistRoute.

Variable isEmail : string -> bool.

(** Where the referrer of an inserted row comes from. *)
Definition resolved (data : WaitlistData) (t : list Subscriber)
    (ref : option string) : Prop :=
  (Js.truthy (data_referralCode data) = false /\ ref = None)
  \/ (exists c r, data_referralCode data = Some c /\ c <> ""
                  /\ find (prisma.has_referralCode c) t = Some r
                  /\ ref = Some (id r)).

Lemma POST_success_row (e : env) (request : json_body) (data : WaitlistData)
    (d : db) :
  safeParse isEmail request = ParseSuccess data ->
  success (fst (POST isEmail e request d)) = true ->
  exists ref,
    resolved data (rows d) ref
    /\ find (prisma.has_email (data_email data)) (rows d) = None
    /\ prisma.accepts (rows d) (new_row e data ref) = true
    /\ fst (POST isEmail e request d) = joined (Some (generateUniqueCode e))
    /\ rows (snd (POST isEmail e request d))
       = (rows d ++ [new_row e data ref])%list.
Proof.
  intros V. rewrite (POST_steps isEmail e request data d V). cbn zeta.
  destruct (find (prisma.has_email _) (rows d)) eqn:F; [discriminate|].
  destruct (Js.truthy (data_referralCode data)) eqn:T.
  - destruct (data_referralCode data) as [c|] eqn:C; [|discriminate].
    cbn [Js.narrowed].
    destruct (find (prisma.has_referralCode c) (rows d)) as [r|] eqn:Fc;
      [|now destruct (Postgres.text c)].
    unfold try_catch. rewrite insert_run. cbn [rows sent].
    destruct (prisma.accepts _ _) eqn:A; [|discriminate].
    intros _. exists (Some (id r)). repeat split; trivial.
    right. exists c, r. repeat split; trivial.
    intros ->. discriminate.
  - unfold try_catch. rewrite insert_run. cbn [rows sent].
    destruct (prisma.accepts _ _) eqn:A; [|discriminate].
    intros _. exists None. repeat split; trivial. left. now split.
Qed.

(** X3.  A body that fails the schema of the route is answered before
    anything is sent to the table: a body that is not JSON with the server
    error, any other one with the validation failure that carries its
    field errors; the table and the list of queries are as they were. *)
Theorem invalid_body_sends_no_query (e : env) (request : json_body)
    (errs : list (string * list issue)) (d : db) :
  safeParse isEmail request = ParseFailure errs ->
  POST isEmail e request d
  = (match request with
     | BadJson => server_error
     | _ => validation_failed errs
     end, d).
Proof.
  intros V. unfold POST, try_catch, bind, request_json, ret, throw.
  destruct request; try reflexivity; now rewrite V.
Qed.

Lemma field_errors_keys {A} (key : string) (r : A + list issue) (k : string) :
  In k (map fst (field_errors key r))
  <-> k = key /\ exists issues, r = inr issues.
Proof.
  destruct r as [a|issues]; simpl.
  - split; [tauto | intros [_ [? H]]; discriminate].
  - split; [intros [<-|[]]; eauto | intros [-> _]; now left].
Qed.

Lemma inr_iff_not_inl {A B} (r : A + B) :
  (exists b, r = inr b) <-> ~ exists a, r = inl a.
Proof.
  destruct r as [a|b]; split.
  - intros [? H]. discriminate.
  - intros H. destruct H. eauto.
  - intros _ [? H]. discriminate.
  - eauto.
Qed.

(** X4.  The field errors of a failed validation name exactly the fields
    that failed: [email] when it is not a string that passes the format
    check, [name] and [referralCode] when they are present and not
    strings; for a body that is an object there is at least one of them,
    and for a JSON body that is not an object there is none. *)
Theorem field_errors_name_failing_fields (request : json_body)
    (errs : list (string * list issue)) :
  safeParse isEmail request = ParseFailure errs ->
  match request with
  | JObject fields =>
      errs <> []
      /\ (forall k, In k (map fst errs) <->
            (k = "email"
             /\ ~ exists s, fields !! "email" = Some (VStr s)
                            /\ isEmail s = true)
            \/ (k = "name" /\ ~ string_or_absent (fields !! "name"))
            \/ (k = "referralCode"
                /\ ~ string_or_absent (fields !! "referralCode")))
  | _ => errs = []
  end.
Proof.
  destruct request as [| |fields]; simpl; try (now intros [= <-]).
  unfold waitlistSchema.
  pose proof (email_field_ok isEmail (fields !! "email")) as He.
  pose proof (optional_string_field_ok (fields !! "name")) as Hn.
  pose proof (optional_string_field_ok (fields !! "referralCode")) as Hc.
  intros H.
  assert (E : errs = (field_errors "email"
                        (email_field isEmail (fields !! "email"))
                      ++ field_errors "name"
                           (optional_string_field (fields !! "name"))
                      ++ field_errors "referralCode"
                           (optional_string_field
                              (fields !! "referralCode")))%list).
  { destruct (email_field isEmail (fields !! "email"));
      destruct (optional_string_field (fields !! "name"));
      destruct (optional_string_field (fields !! "referralCode"));
      congruence. }
  split.
  - destruct (email_field isEmail (fields !! "email"));
      destruct (optional_string_field (fields !! "name"));
      destruct (optional_string_field (fields !! "referralCode"));
      solve [discriminate | injection H as <-; discriminate].
  - intros k. rewrite E, !map_app, !in_app_iff, !field_errors_keys.
    rewrite <- He, <- Hn, <- Hc, !inr_iff_not_inl. reflexivity.
Qed.

End SignupMore.

Section SignupEffects.

Import WaitlistRoute.

Variable isEmail : string -> bool.

(** X5.  A signup either succeeds, with status 200, and appends to the
    table the one row made of the parsed email and name, the generated
    code and the resolved referrer, which is none when the request has no
    referral code or an empty one and otherwise the id of the row that
    the lookup of the code found, or fails, with status 400 or 500, and
    leaves every row of the table as it was; no row is ever changed or
    removed. *)
Theorem signup_adds_one_row_or_none (e : env) (request : json_body) (d : db) :
  (success (fst (POST isEmail e request d)) = true
   /\ status (fst (POST isEmail e request d)) = 200
   /\ exists data ref,
        safeParse isEmail request = ParseSuccess data
        /\ resolved data (rows d) ref
        /\ rows (snd (POST isEmail e request d))
           = (rows d ++ [new_row e data ref])%list)
  \/ (success (fst (POST isEmail e request d)) = false
      /\ (status (fst (POST isEmail e request d)) = 400
          \/ status (fst (POST isEmail e request d)) = 500)
      /\ rows (snd (POST isEmail e request d)) = rows d).
Proof.
  destruct (safeParse isEmail request) as [data|errs] eqn:V.
  - destruct (success (fst (POST isEmail e request d))) eqn:S.
    + left.
      destruct (POST_success_row isEmail e request data d V S)
        as (ref & R & _ & _ & J & Rows).
      rewrite J. split; [reflexivity|]. split; [reflexivity|].
      now exists data, ref.
    + right. revert S.
      rewrite (POST_steps isEmail e request data d V). cbn zeta.
      destruct (find (prisma.has_email _) (rows d));
        [cbn; auto|].
      destruct (Js.truthy (data_referralCode data)).
      * destruct (find (prisma.has_referralCode _) (rows d)) as [r|];
          [|destruct (Postgres.text _); cbn; auto].
        unfold try_catch. rewrite insert_run. cbn [rows sent].
        destruct (prisma.accepts _ _); [discriminate | cbn; auto].
      * unfold try_catch. rewrite insert_run. cbn [rows sent].
        destruct (prisma.accepts _ _); [discriminate | cbn; auto].
  - right. unfold POST, try_catch, bind, request_json, ret, throw.
    destruct request; try rewrite V; cbn; auto.
Qed.

(** X6.  A request whose [referralCode] is the empty string, as the form
    sends it when the field is left blank, is answered exactly as the same
    request without the field: the same answer, the same table and the
    same queries, none of them a referral lookup. *)
Theorem blank_referral_code_is_no_code (e : env)
    (fields : gmap string jsval) (d : db) :
  fields !! "referralCode" = Some (VStr "") ->
  POST isEmail e (JObject fields) d
  = POST isEmail e (JObject (delete "referralCode" fields)) d
  /\ exists qs,
       queries (snd (POST isEmail e (JObject fields) d))
       = (queries d ++ qs)%list
       /\ forall c, ~ In (FindUniqueByReferralCode c) qs.
Proof.
  intros H. split.
  - unfold POST, try_catch, bind, request_json, ret, safeParse,
      waitlistSchema.
    rewrite lookup_delete_eq, !lookup_delete_ne by done. rewrite H.
    cbn [optional_string_field].
    destruct (email_field isEmail (fields !! "email")) as [em|ie];
      destruct (optional_string_field (fields !! "name")) as [nm|ine];
      reflexivity.
  - destruct (safeParse isEmail (JObject fields)) as [data|errs] eqn:V.
    + assert (C : data_referralCode data = Some "").
      { simpl in V. unfold waitlistSchema in V. rewrite H in V.
        cbn [optional_string_field] in V.
        destruct (email_field isEmail (fields !! "email"));
          destruct (optional_string_field (fields !! "name"));
          try discriminate.
        now injection V as <-. }
      rewrite (POST_steps isEmail e _ data d V), C. cbn.
      destruct (find (prisma.has_email _) (rows d)).
      * eexists. split; [reflexivity|]. intros c [X|[]]. discriminate.
      * unfold try_catch. rewrite insert_run. cbn [rows sent].
        destruct (prisma.accepts _ _); cbn [snd queries sent];
          rewrite <- app_assoc; (eexists; split; [reflexivity|]);
          intros c [X|[X|[]]]; discriminate.
    + exists []. split; [|intros c []]. rewrite app_nil_r.
      unfold POST, try_catch, bind, request_json, ret. now rewrite V.
Qed.

End SignupEffects.

Section SignupInvariants.

Import WaitlistRoute.

Variable isEmail : string -> bool.

Lemma POST_keeps_consistent (e : env) (request : json_body) (d : db) :
  consistent (rows d) ->
  consistent (rows (snd (POST isEmail e request d))).
Proof.
  intros C.
  destruct (POST_outcome isEmail e request d)
    as [[_ ->]|[data [ref [_ [A ->]]]]];
    [exact C | now apply consistent_insert].
Qed.

(** X7.  Signups keep the constraints of the schema on the table: after
    any run of signup requests, whatever they draw, on a table with unique
    ids, unique emails and unique codes in which every referrer is an
    earlier row, the table still is such a table; so no subscriber refers
    to itself or to a later one. *)
Theorem signups_keep_table_consistent (l : list (env * json_body)) (d : db) :
  consistent (rows d) -> consistent (rows (signups isEmail l d)).
Proof.
  revert d. induction l as [|[e request] l IH]; intros d C; [exact C|].
  simpl. apply IH. now apply POST_keeps_consistent.
Qed.

(** X8.  An email can sign up once.  After a successful signup, every
    later valid signup with the same email, whatever else it carries and
    whatever it draws, is answered with the duplicate-email failure and
    adds no row. *)
Theorem second_signup_is_duplicate (e1 e2 : env) (r1 r2 : json_body)
    (data1 data2 : WaitlistData) (d : db) :
  safeParse isEmail r1 = ParseSuccess data1 ->
  safeParse isEmail r2 = ParseSuccess data2 ->
  data_email data2 = data_email data1 ->
  success (fst (POST isEmail e1 r1 d)) = true ->
  fst (POST isEmail e2 r2 (snd (POST isEmail e1 r1 d))) = duplicate_email
  /\ rows (snd (POST isEmail e2 r2 (snd (POST isEmail e1 r1 d))))
     = rows (snd (POST isEmail e1 r1 d)).
Proof.
  intros V1 V2 E S.
  destruct (POST_success_row isEmail e1 r1 data1 d V1 S)
    as (ref & _ & _ & _ & _ & R).
  rewrite (POST_steps isEmail e2 r2 data2 _ V2).
  assert (F : on_waitlist (rows (snd (POST isEmail e1 r1 d)))
                (data_email data2)).
  { exists (new_row e1 data1 ref). rewrite R. split.
    - apply in_or_app. right. now left.
    - now rewrite E. }
  destruct (on_waitlist_found _ _ F) as [x ->]. cbn. now split.
Qed.

(** X9.  The counts that the count route gives follow the signups: when
    it answers with a count before a signup and with a count after it,
    the first is the number of rows of the table and the second is the
    first plus one when the signup succeeded, and the first when it
    failed. *)
Theorem count_follows_signup (e : env) (request : json_body) (d : db)
    (n m : nat) :
  payload (fst (CountRoute.GET d)) = Count n ->
  payload (fst (CountRoute.GET (snd (POST isEmail e request d)))) = Count m ->
  n = length (rows d)
  /\ m = n + if success (fst (POST isEmail e request d)) then 1 else 0.
Proof.
  intros Hn Hm. cbn in Hn, Hm. injection Hn as <-. injection Hm as <-.
  split; [reflexivity|].
  destruct (POST_outcome isEmail e request d)
    as [[S R]|[data [ref [J [_ R]]]]].
  - rewrite R, S. lia.
  - rewrite R, J. cbn. now rewrite length_app.
Qed.

(** X10.  The code that a successful signup returns can be looked up at
    once: on a table that keeps the constraints, when the returned code
    has the 3 to 20 characters that the referral route wants, the lookup
    of that code right after the signup succeeds and reports no
    referral. *)
Theorem returned_code_has_empty_stats (e : env) (request : json_body)
    (data : WaitlistData) (d : db) :
  safeParse isEmail request = ParseSuccess data ->
  consistent (rows d) ->
  success (fst (POST isEmail e request d)) = true ->
  well_shaped (Some (generateUniqueCode e)) ->
  payload (fst (POST isEmail e request d))
  = ReferralCode (Some (generateUniqueCode e))
  /\ fst (ReferralsRoute.GET (Some (generateUniqueCode e))
            (snd (POST isEmail e request d)))
     = ReferralsRoute.stats [].
Proof.
  intros V C S W.
  destruct (POST_success_row isEmail e request data d V S)
    as (ref & Res & _ & A & J & R).
  split; [now rewrite J|].
  assert (C' : consistent (rows d ++ [new_row e data ref])).
  { now apply consistent_insert. }
  rewrite (GET_steps _ _ W), R.
  destruct C' as (_ & _ & U & _).
  rewrite (find_code_unique _ (generateUniqueCode e) (new_row e data ref) U);
    [|apply in_or_app; right; now left | reflexivity].
  rewrite referrals_of_none; [reflexivity|].
  destruct (accepts_parts _ _ A) as (Hid & _ & Href).
  destruct C as (_ & _ & _ & Early).
  intros x Hx Rx. cbn [id new_row] in Rx.
  assert (X : exists y, In y (rows d) /\ id y = uuid e).
  { apply in_app_or in Hx as [Hx|[<-|[]]].
    - exact (referrers_exist _ x _ Early Hx Rx).
    - exact (Href _ Rx). }
  destruct X as [y [Hy Ey]].
  exact (id_free_by_scan _ _ Hid y Hy Ey).
Qed.

(** X11.  A signup does not touch the statistics of the others.  On a
    table that keeps the constraints, the referral lookup of the code of a
    subscriber answers after a valid signup that does not carry that code
    what it answered before. *)
Theorem other_stats_unchanged (e : env) (request : json_body)
    (data : WaitlistData) (c : string) (s : Subscriber) (d : db) :
  safeParse isEmail request = ParseSuccess data ->
  consistent (rows d) ->
  In s (rows d) -> referralCode s = Some c ->
  data_referralCode data <> Some c ->
  fst (ReferralsRoute.GET (Some c) (snd (POST isEmail e request d)))
  = fst (ReferralsRoute.GET (Some c) d).
Proof.
  intros V C Hs Hc Hother.
  destruct (success (fst (POST isEmail e request d))) eqn:S.
  - destruct (POST_success_row isEmail e request data d V S)
      as (ref & Res & _ & A & _ & R).
    unfold ReferralsRoute.GET, try_catch.
    destruct (ReferralsRoute.referralQuerySchema (Some c)); [|reflexivity].
    unfold bind, prisma.findUnique_referralCode_include. cbn [Js.narrowed].
    rewrite R. destruct C as (Nid & _ & U & _).
    pose proof (find_code_unique _ c s U Hs Hc) as F.
    rewrite (find_app_some _ _ _ _ F), F. cbn [fst].
    unfold prisma.referrals_of. rewrite List.filter_app. simpl.
    replace (prisma.referred_by (id s) (new_row e data ref)) with false;
      [now rewrite app_nil_r|].
    symmetry. destruct (prisma.referred_by (id s) (new_row e data ref)) eqn:B;
      [|reflexivity].
    exfalso. apply opt_string_eqb_eq in B. cbn [referredBy new_row] in B.
    destruct Res as [[_ ->]|(c' & r & Dc & _ & Fr & ->)]; [discriminate|].
    injection B as B. apply find_some in Fr as [Hr Er].
    apply opt_string_eqb_eq in Er.
    assert (r = s) by exact (same_id_same_row _ r s Nid Hr Hs B).
    subst r. apply Hother. congruence.
  - destruct (POST_outcome isEmail e request d)
      as [[_ R]|[data' [ref [J _]]]].
    + unfold ReferralsRoute.GET, try_catch.
      destruct (ReferralsRoute.referralQuerySchema (Some c)); [|reflexivity].
      unfold bind, prisma.findUnique_referralCode_include. rewrite R.
      destruct (find _ (rows d)) as [x|]; [reflexivity|].
      now destruct (Postgres.text _).
    + rewrite J in S. discriminate.
Qed.

End SignupInvariants.

(** ** The generated code and the referral list *)

(** X12.  For a draw whose text is [0.] followed by base-36 digits, the
    generated code is the upper-cased first eight digits: it is made of
    upper-case letters and digits, has as many characters as the draw has
    digits, eight at most, and two draws that agree on their first eight
    digits generate the same code. *)
Theorem generated_code_shape (e : env) (ds : list ascii) :
  fraction_digits (random_text e) = Some ds ->
  WaitlistRoute.generateUniqueCode e
  = Js.toUpperCase (string_of_list_ascii (firstn 8 ds))
  /\ is_upper_alnum (WaitlistRoute.generateUniqueCode e) = true
  /\ String.length (WaitlistRoute.generateUniqueCode e)
     = Nat.min 8 (length ds)
  /\ forall e' ds',
       fraction_digits (random_text e') = Some ds' ->
       firstn 8 ds' = firstn 8 ds ->
       WaitlistRoute.generateUniqueCode e'
       = WaitlistRoute.generateUniqueCode e.
Proof.
  intros H. destruct (generateUniqueCode_format e ds H) as [F L].
  split; [now apply generateUniqueCode_digits|].
  split; [exact F|]. split; [exact L|].
  intros e' ds' H' E.
  now rewrite (generateUniqueCode_digits e ds H),
    (generateUniqueCode_digits e' ds' H'), E.
Qed.

Lemma generated_code_shape_witness :
  let e := Sample.draw "0.k3j9x2m7qa4" "id-ann" 10 in
  let ds := list_ascii_of_string "k3j9x2m7qa4" in
  WaitlistRoute.generateUniqueCode e
  = Js.toUpperCase (string_of_list_ascii (firstn 8 ds))
  /\ is_upper_alnum (WaitlistRoute.generateUniqueCode e) = true
  /\ String.length (WaitlistRoute.generateUniqueCode e)
     = Nat.min 8 (length ds)
  /\ forall e' ds',
       fraction_digits (random_text e') = Some ds' ->
       firstn 8 ds' = firstn 8 ds ->
       WaitlistRoute.generateUniqueCode e'
       = WaitlistRoute.generateUniqueCode e.
Proof.
  apply (generated_code_shape (Sample.draw "0.k3j9x2m7qa4" "id-ann" 10)
           (list_ascii_of_string "k3j9x2m7qa4")).
  reflexivity.
Defined.

(** X13.  Whenever the referral route answers with statistics, the total
    is the length of the list it returns, the code has 3 to 20 characters
    and is the code of a row of the table, and the list has one entry, in
    table order, for each row whose referrer is that row and for no other:
    its creation date and its masked email.  The table is left as it
    was. *)
Theorem stats_list_the_referred_rows (code : option string) (d : db)
    (n : nat) (l : list ReferralEntry) :
  payload (fst (ReferralsRoute.GET code d)) = Stats n l ->
  n = length l
  /\ rows (snd (ReferralsRoute.GET code d)) = rows d
  /\ exists c s,
       code = Some c /\ well_shaped code
       /\ In s (rows d) /\ referralCode s = Some c
       /\ l = map ReferralsRoute.entry (prisma.referrals_of s (rows d))
       /\ forall x, In x (prisma.referrals_of s (rows d))
                    <-> In x (rows d) /\ referredBy x = Some (id s).
Proof.
  unfold ReferralsRoute.GET, try_catch.
  destruct (ReferralsRoute.referralQuerySchema code) as [c|errs] eqn:Q;
    [|discriminate].
  destruct (referralQuerySchema_success code c Q) as [W ->].
  unfold bind, prisma.findUnique_referralCode_include. cbn [Js.narrowed].
  destruct (find (prisma.has_referralCode c) (rows d)) as [s|] eqn:F;
    [|now destruct (Postgres.text c)].
  cbn. intros [= <- <-]. split; [now rewrite length_map|].
  split; [reflexivity|].
  apply find_some in F as [Hs Hc]. apply opt_string_eqb_eq in Hc.
  exists c, s.
  split; [reflexivity|]. split; [exact W|]. split; [exact Hs|].
  split; [exact Hc|]. split; [reflexivity|].
  intros x. unfold prisma.referrals_of, prisma.referred_by.
  now rewrite List.filter_In, opt_string_eqb_eq.
Qed.

Lemma stats_list_the_referred_rows_witness :
  let code := Some "USER1CODE" in
  let d := Sample.seeded in
  let l := [{| date := 2; entry_email := "re*******@example.com" |}] in
  1%nat = length l
  /\ rows (snd (ReferralsRoute.GET code d)) = rows d
  /\ exists c s,
       code = Some c /\ well_shaped code
       /\ In s (rows d) /\ referralCode s = Some c
       /\ l = map ReferralsRoute.entry (prisma.referrals_of s (rows d))
       /\ forall x, In x (prisma.referrals_of s (rows d))
                    <-> In x (rows d) /\ referredBy x = Some (id s).
Proof.
  apply (stats_list_the_referred_rows (Some "USER1CODE") Sample.seeded 1
           [{| date := 2; entry_email := "re*******@example.com" |}]).
  vm_compute. reflexivity.
Defined.

(** ** The schemas of the forms and the schemas of the routes *)

Section FormSchemas.

Variable isEmail : string -> bool.

Ltac leb_props :=
  repeat match goal with
    | H : (_ <=? _)%nat = true |- _ => apply Nat.leb_le in H
    | H : (_ <=? _)%nat = false |- _ => apply Nat.leb_gt in H
    end.

Lemma shared_email_field_ok (v : option jsval) (s : string) :
  Validations.email_field isEmail v = inl s
  <-> v = Some (VStr s) /\ isEmail s = true
      /\ (5 <= String.length s <= 100)%nat.
Proof.
  unfold Validations.email_field, Validations.check.
  destruct v as [[| | |s'|]|];
    try (split; [discriminate | intros [H _]; discriminate]).
  destruct (isEmail s') eqn:E;
    destruct (5 <=? String.length s')%nat eqn:L;
    destruct (String.length s' <=? 100)%nat eqn:H;
    leb_props; cbn [app];
    split; try discriminate;
    try (intros [= <-]; repeat split; trivial; lia);
    try (intros [[= <-] [? ?]]; try reflexivity; try congruence; lia).
Qed.

Lemma shared_name_field_ok (v : option jsval) (o : option string) :
  Validations.name_field v = inl o
  <-> (v = None /\ o = None)
      \/ exists s, v = Some (VStr s) /\ o = Some s
                   /\ (1 <= String.length s <= 100)%nat.
Proof.
  unfold Validations.name_field, Validations.check.
  destruct v as [[| | |s'|]|];
    try (split; [discriminate
                | intros [[H _]|[s [H _]]]; discriminate]).
  - destruct (1 <=? String.length s')%nat eqn:L;
      destruct (String.length s' <=? 100)%nat eqn:H;
      leb_props; cbn [app];
      split; try discriminate;
      try (intros [= <-]; right; exists s'; repeat split; trivial; lia);
      try (intros [[X _]|[s [[= <-] [? ?]]]];
           [discriminate | try congruence; lia]).
  - split.
    + intros [= <-]. now left.
    + intros [[_ ->]|[s [H _]]]; [reflexivity | discriminate].
Qed.

(** X14.  The shared form schema takes a set of values exactly when its
    email is a string of 5 to 100 characters that passes the format check,
    its name is absent or a string of 1 to 100 characters, and its
    referral code is a string or absent; the empty name of an untouched
    optional field is not taken. *)
Theorem shared_schema_accepts (fields : gmap string jsval) :
  ((exists data, Validations.WaitlistSchema isEmail fields = ParseSuccess data)
   <-> (exists s, fields !! "email" = Some (VStr s) /\ isEmail s = true
                  /\ (5 <= String.length s <= 100)%nat)
       /\ (fields !! "name" = None
           \/ exists s, fields !! "name" = Some (VStr s)
                        /\ (1 <= String.length s <= 100)%nat)
       /\ string_or_absent (fields !! "referralCode"))
  /\ (fields !! "name" = Some (VStr "") ->
      exists errs,
        Validations.WaitlistSchema isEmail fields = ParseFailure errs
        /\ In ("name", [Message "Name is required"]) errs).
Proof.
  split.
  - unfold Validations.WaitlistSchema.
    pose proof (shared_email_field_ok (fields !! "email")) as He.
    pose proof (shared_name_field_ok (fields !! "name")) as Hn.
    pose proof (optional_string_field_ok (fields !! "referralCode")) as Hc.
    destruct (Validations.email_field isEmail (fields !! "email")) as [s|ie];
      destruct (Validations.name_field (fields !! "name")) as [n|ine];
      destruct (WaitlistRoute.optional_string_field
                  (fields !! "referralCode")) as [c|ic];
      split;
      try (intros [data H]; discriminate).
    + intros _. split; [exists s; now apply He|].
      split; [|apply Hc; eauto].
      destruct (proj1 (Hn n) eq_refl) as [[H _]|[x [H [_ B]]]]; eauto.
    + eauto.
    + intros [_ [_ H]]. apply Hc in H as [o H]. discriminate.
    + intros [_ [[H|[x [H B]]] _]].
      * assert (X : @inr (option string) _ ine = inl None)
          by (apply Hn; now left). discriminate.
      * assert (X : @inr (option string) _ ine = inl (Some x))
          by (apply Hn; right; exists x; now repeat split). discriminate.
    + intros [_ [_ H]]. apply Hc in H as [o H]. discriminate.
    + intros [[x H] _].
      assert (X : @inr string _ ie = inl x) by now apply He. discriminate.
    + intros [[x H] _].
      assert (X : @inr string _ ie = inl x) by now apply He. discriminate.
    + intros [[x H] _].
      assert (X : @inr string _ ie = inl x) by now apply He. discriminate.
    + intros [[x H] _].
      assert (X : @inr string _ ie = inl x) by now apply He. discriminate.
  - intros H. unfold Validations.WaitlistSchema. rewrite H.
    cbn [Validations.name_field]. cbn.
    destruct (Validations.email_field isEmail (fields !! "email"));
      destruct (WaitlistRoute.optional_string_field
                  (fields !! "referralCode"));
      eexists; (split; [reflexivity|]); cbn;
      rewrite ?in_app_iff; cbn; tauto.
Qed.

(** X15.  What the shared form schema takes, the schema of the route
    takes, with the same parsed data: a submission that passed the form
    is never answered with the validation failure. *)
Theorem form_values_pass_the_route (fields : gmap string jsval)
    (data : WaitlistRoute.WaitlistData) :
  Validations.WaitlistSchema isEmail fields = ParseSuccess data ->
  WaitlistRoute.waitlistSchema isEmail fields = ParseSuccess data
  /\ forall e d errs,
       fst (WaitlistRoute.POST isEmail e (JObject fields) d)
       <> WaitlistRoute.validation_failed errs.
Proof.
  intros H.
  assert (R : WaitlistRoute.waitlistSchema isEmail fields = ParseSuccess data).
  { unfold Validations.WaitlistSchema in H.
    unfold WaitlistRoute.waitlistSchema.
    pose proof (shared_email_field_ok (fields !! "email")) as He.
    pose proof (shared_name_field_ok (fields !! "name")) as Hn.
    destruct (Validations.email_field isEmail (fields !! "email")) as [s|ie];
      destruct (Validations.name_field (fields !! "name")) as [n|ine];
      destruct (WaitlistRoute.optional_string_field
                  (fields !! "referralCode")) as [c|ic];
      try discriminate.
    destruct (proj1 (He s) eq_refl) as (-> & E & _).
    simpl. rewrite E.
    destruct (proj1 (Hn n) eq_refl) as [[-> ->]|[x (-> & -> & _)]];
      simpl; exact H. }
  split; [exact R|]. intros e d errs.
  rewrite (POST_steps isEmail e (JObject fields) data d R). cbn zeta.
  destruct (find (prisma.has_email _) (rows d)); [discriminate|].
  destruct (Js.truthy _).
  - destruct (find (prisma.has_referralCode _) (rows d));
      [|destruct (Postgres.text _); discriminate].
    unfold try_catch. rewrite insert_run.
    destruct (prisma.accepts _ _); discriminate.
  - unfold try_catch. rewrite insert_run.
    destruct (prisma.accepts _ _); discriminate.
Qed.

End FormSchemas.

Section SecondForm.

Import WaitlistRoute.

Variable isEmail : string -> bool.

Lemma second_form_data (fields : gmap string jsval)
    (data : WaitlistFormTsx.WaitlistFormData) :
  WaitlistFormTsx.waitlistSchema isEmail fields = ParseSuccess data ->
  isEmail (WaitlistFormTsx.form_email data) = true
  /\ (1 <= String.length (WaitlistFormTsx.form_name data))%nat.
Proof.
  unfold WaitlistFormTsx.waitlistSchema, WaitlistFormTsx.name_field,
    email_field.
  destruct (fields !! "name") as [[| | |n|]|]; try discriminate;
    destruct (fields !! "email") as [[| | |s|]|]; try discriminate;
    try (destruct (1 <=? String.length n)%nat; discriminate).
  destruct (1 <=? String.length n)%nat eqn:L;
    destruct (isEmail s) eqn:E; try discriminate.
  intros [= <-]. cbn. split; [exact E | now apply Nat.leb_le].
Qed.

(** X16.  A submission of the second form, which has a name and an email
    and no referral field, passes the schema of the route when it passed
    the schema of the form; the route then sends no referral lookup, and a
    row that it inserts has the name of the form, never empty, and no
    referrer. *)
Theorem second_form_signup_has_no_referrer (fields : gmap string jsval)
    (data : WaitlistFormTsx.WaitlistFormData) (e : env) (d : db) :
  WaitlistFormTsx.waitlistSchema isEmail fields = ParseSuccess data ->
  let parsed :=
    {| data_email := WaitlistFormTsx.form_email data;
       data_name := Some (WaitlistFormTsx.form_name data);
       data_referralCode := None |} in
  let run := POST isEmail e (WaitlistFormTsx.body data) d in
  WaitlistFormTsx.form_name data <> ""
  /\ safeParse isEmail (WaitlistFormTsx.body data) = ParseSuccess parsed
  /\ (exists qs, queries (snd run) = (queries d ++ qs)%list
                 /\ forall c, ~ In (FindUniqueByReferralCode c) qs)
  /\ (rows (snd run) = rows d
      \/ rows (snd run) = (rows d ++ [new_row e parsed None])%list).
Proof.
  intros H parsed run. destruct (second_form_data fields data H) as [E L].
  assert (V : safeParse isEmail (WaitlistFormTsx.body data)
              = ParseSuccess parsed).
  { unfold safeParse, WaitlistFormTsx.body, waitlistSchema.
    rewrite lookup_insert_ne, lookup_insert_eq, lookup_insert_eq by done.
    rewrite !lookup_insert_ne, lookup_empty by done.
    simpl. now rewrite E. }
  split. { intros X. rewrite X in L. simpl in L. lia. }
  split; [exact V|].
  subst run. rewrite (POST_steps isEmail e _ parsed d V). cbn.
  destruct (find (prisma.has_email _) (rows d)).
  - split; [|now left].
    eexists. split; [reflexivity|]. intros c [X|[]]. discriminate.
  - unfold try_catch. rewrite insert_run. cbn [rows sent].
    destruct (prisma.accepts _ _); cbn [snd queries sent rows];
      rewrite <- app_assoc; (split; [|auto]);
      (eexists; split; [reflexivity|]);
      intros c [X|[X|[]]]; discriminate.
Qed.

End SecondForm.

(** X17.  The referral form and the referral route agree on the shape of
    a code: a code that the schema of the form takes is taken by the
    schema of the route and is never answered with the format failure, and
    a code that the form refuses would be answered with the format
    failure, without any query. *)
Theorem referral_form_and_route_agree (code : option string) (d : db) :
  match ReferralStatsTsx.ReferralCodeSchema code with
  | ParseSuccess s =>
      code = Some s
      /\ ReferralsRoute.referralQuerySchema code = ParseSuccess s
      /\ fst (ReferralsRoute.GET code d) <> ReferralsRoute.invalid_format
  | ParseFailure _ =>
      ReferralsRoute.GET code d = (ReferralsRoute.invalid_format, d)
  end.
Proof.
  destruct code as [c|]; [|now apply GET_rejects].
  unfold ReferralStatsTsx.ReferralCodeSchema.
  destruct (Nat.ltb_spec (String.length c) 3) as [L|L];
    destruct (Nat.ltb_spec 20 (String.length c)) as [H|H]; cbn [app];
    try (apply GET_rejects; simpl; lia).
  assert (W : well_shaped (Some c)) by (simpl; lia).
  split; [reflexivity|].
  split; [now apply referralQuerySchema_accepts|].
  rewrite (GET_steps c d W). cbn [fst].
  destruct (find _ (rows d)); [|destruct (Postgres.text c)]; discriminate.
Qed.

(** ** The seeding script *)

Section Seeding.

Import InitDb.

Lemma accepts_email_taken (t : list Subscriber) (r : Subscriber) :
  on_waitlist t (email r) -> prisma.accepts t r = false.
Proof.
  intros [x [Hx E]]. unfold prisma.accepts.
  assert (X : existsb (prisma.has_email (email r)) t = true).
  { apply existsb_exists. exists x. split; [exact Hx|].
    now apply String.eqb_eq. }
  rewrite X. cbn. now rewrite andb_false_r.
Qed.

(** The inserts before the one a run stopped at were accepted. *)
Ltac earlier_accepted :=
  let j := fresh "j" in
  let J := fresh "J" in
  intros j J;
  repeat match goal with
    | H : prisma.accepts _ _ = true |- _ =>
        progress (rewrite <- ?app_assoc in H; cbn [app] in H)
    end;
  repeat (destruct j as [|j];
          [cbn [firstn nth seeds app]; rewrite ?app_nil_r; assumption|]);
  lia.

Ltac stop_at A :=
  cbn; rewrite <- ?app_assoc; rewrite <- ?app_assoc in A; cbn in A;
  repeat split;
  try lia; try tauto; try discriminate; try congruence;
  try (intros _; lia); try (intros _; exact A);
  try (intros X; cbn in X; congruence);
  try earlier_accepted.

(** What [main] does to the table, by the first [create] that is refused. *)
Lemma main_prefix (draws : nat -> env) (t : list Subscriber) :
  exists k,
    (k <= 5)%nat
    /\ table (main draws t) = (t ++ firstn k (seeds draws))%list
    /\ (In (Error "Error during database initialization:")
          (console (main draws t)) <-> (k < 5)%nat)
    /\ (prisma.accepts t (nth 0 (seeds draws) Sample.user1) = false ->
        k = 0%nat)
    /\ ((k < 5)%nat ->
        prisma.accepts (t ++ firstn k (seeds draws))
          (nth k (seeds draws) Sample.user1) = false)
    /\ (forall j, (j < k)%nat ->
        prisma.accepts (t ++ firstn j (seeds draws))
          (nth j (seeds draws) Sample.user1) = true)
    /\ (k = 5%nat ->
        console (main draws t)
        = [ Log "Starting database initialization...";
            Log "Creating initial test subscribers...";
            Log "Creating referral relationships...";
            Log "Database initialization completed successfully!";
            Total (length (t ++ seeds draws));
            Log (String "010"%char "Referral Relationships:");
            has_referrals
              (with_referrals (uuid (draws 0%nat)) (t ++ seeds draws));
            has_referrals
              (with_referrals (uuid (draws 1%nat)) (t ++ seeds draws)) ]).
Proof.
  unfold main, seeding, then_, log, create, count, findUnique_id_include,
    with_referrals.
  cbn [table console].
  destruct (prisma.accepts t _) eqn:A1.
  2:{ exists 0%nat. rewrite app_nil_r. stop_at A1. }
  cbn [table console].
  destruct (prisma.accepts (t ++ [_]) _) eqn:A2.
  2:{ exists 1%nat. stop_at A2. }
  cbn [table console].
  destruct (prisma.accepts ((t ++ [_]) ++ [_]) _) eqn:A3.
  2:{ exists 2%nat. stop_at A3. }
  cbn [table console].
  destruct (prisma.accepts (((t ++ [_]) ++ [_]) ++ [_]) _) eqn:A4.
  2:{ exists 3%nat. stop_at A4. }
  cbn [table console].
  destruct (prisma.accepts ((((t ++ [_]) ++ [_]) ++ [_]) ++ [_]) _) eqn:A5.
  2:{ exists 4%nat. stop_at A5. }
  exists 5%nat. cbn. rewrite <- !app_assoc. cbn.
  repeat split; try lia; try discriminate;
    try (intros X; cbn in X; congruence);
    try earlier_accepted.
  intros H. exfalso.
  repeat (destruct H as [H|H];
          [first [discriminate | destruct (find _ _) in H; discriminate]|]).
  exact H.
Qed.

(** X18.  The seeding script runs without a transaction: it appends to
    the table the rows of its five subscribers, in the order of the
    script, up to the first one that the table refuses, and changes or
    removes no row.  The number of rows it appends is the place in the
    script of the first insert that is refused after the ones before it:
    each earlier one was accepted by the table as it then was, and this
    one, if the script has it, is refused.  The script writes the error
    line exactly when it stopped before the end. *)
Theorem seeding_appends_a_prefix (draws : nat -> env) (t : list Subscriber) :
  exists k,
    (k <= 5)%nat
    /\ table (main draws t) = (t ++ firstn k (seeds draws))%list
    /\ (forall j, (j < k)%nat ->
        prisma.accepts (t ++ firstn j (seeds draws))
          (nth j (seeds draws) Sample.user1) = true)
    /\ ((k < 5)%nat ->
        prisma.accepts (t ++ firstn k (seeds draws))
          (nth k (seeds draws) Sample.user1) = false)
    /\ (In (Error "Error during database initialization:")
          (console (main draws t)) <-> (k < 5)%nat).
Proof.
  destruct (main_prefix draws t) as (k & H1 & H2 & H3 & _ & H5 & H6 & _).
  now exists k.
Qed.

(** X19.  Seeding twice is seeding once: when a run of the script has
    inserted anything, a second run, whatever it draws, inserts nothing,
    because the email of its first subscriber is taken; it writes the
    error line. *)
Theorem reseeding_adds_nothing (draws1 draws2 : nat -> env)
    (t : list Subscriber) :
  table (main draws1 t) <> t ->
  table (main draws2 (table (main draws1 t))) = table (main draws1 t)
  /\ In (Error "Error during database initialization:")
       (console (main draws2 (table (main draws1 t)))).
Proof.
  intros Changed.
  destruct (main_prefix draws1 t) as (k & _ & T & _).
  assert (On : on_waitlist (table (main draws1 t)) "user1@example.com").
  { rewrite T. destruct k as [|k].
    - destruct Changed. rewrite T. cbn. now rewrite app_nil_r.
    - eexists. split; [apply in_or_app; right; left; reflexivity|].
      reflexivity. }
  destruct (main_prefix draws2 (table (main draws1 t)))
    as (k2 & _ & T2 & E2 & Z2 & _).
  assert (k2 = 0%nat) as ->.
  { apply Z2. now apply accepts_email_taken. }
  split.
  - rewrite T2. cbn. now rewrite app_nil_r.
  - apply E2. lia.
Qed.

Lemma reseeding_adds_nothing_witness :
  let draws1 := fun k => Sample.draw "" (String (ascii_of_nat (65 + k)) "") 1 in
  let draws2 := fun k => Sample.draw "" (String (ascii_of_nat (75 + k)) "") 2 in
  table (main draws2 (table (main draws1 []))) = table (main draws1 [])
  /\ In (Error "Error during database initialization:")
       (console (main draws2 (table (main draws1 [])))).
Proof.
  apply (reseeding_adds_nothing
           (fun k => Sample.draw "" (String (ascii_of_nat (65 + k)) "") 1)
           (fun k => Sample.draw "" (String (ascii_of_nat (75 + k)) "") 2)
           []).
  vm_compute. discriminate.
Defined.

End Seeding.

Section SeedingFresh.

Import InitDb.

Variable draws : nat -> env.
Variable t : list Subscriber.

Hypothesis Fresh :
  forall r x, In r (seeds draws) -> In x t ->
    id x <> id r /\ email x <> email r /\ referralCode x <> referralCode r.
Hypothesis Distinct : List.NoDup (map id (seeds draws)).

Lemma seed_id_free (k : nat) :
  (k < 5)%nat -> existsb (prisma.has_id (uuid (draws k))) t = false.
Proof.
  intros K. apply existsb_false_forall. intros x Hx. apply String.eqb_neq.
  assert (R : In (nth k (seeds draws) Sample.user1) (seeds draws))
    by (apply nth_In; cbn; lia).
  replace (uuid (draws k)) with (id (nth k (seeds draws) Sample.user1));
    [exact (proj1 (Fresh _ x R Hx))|].
  do 5 (destruct k as [|k]; [reflexivity|]). lia.
Qed.

Lemma seed_email_free (r : Subscriber) :
  In r (seeds draws) -> existsb (prisma.has_email (email r)) t = false.
Proof.
  intros R. apply existsb_false_forall. intros x Hx. apply String.eqb_neq.
  exact (proj1 (proj2 (Fresh r x R Hx))).
Qed.

Lemma seed_code_free (r : Subscriber) (c : string) :
  In r (seeds draws) -> referralCode r = Some c ->
  existsb (prisma.has_referralCode c) t = false.
Proof.
  intros R C. apply existsb_false_forall. intros x Hx.
  destruct (prisma.has_referralCode c x) eqn:E; [|reflexivity].
  apply opt_string_eqb_eq in E.
  destruct (proj2 (proj2 (Fresh r x R Hx))). congruence.
Qed.

Lemma seed_ids_differ (i j : nat) :
  (i < 5)%nat -> (j < 5)%nat -> i <> j ->
  String.eqb (uuid (draws i)) (uuid (draws j)) = false.
Proof.
  intros I J N. apply String.eqb_neq. intros E. apply N.
  apply (proj1 (NoDup_nth (map id (seeds draws)) "") Distinct);
    [cbn; lia | cbn; lia |].
  do 5 (destruct i as [|i]; [do 5 (destruct j as [|j]; [exact E|]); lia|]).
  lia.
Qed.

Lemma seed_free (k : nat) :
  (k < 5)%nat ->
  existsb (prisma.has_email (email (nth k (seeds draws) Sample.user1))) t
  = false
  /\ forall c, referralCode (nth k (seeds draws) Sample.user1) = Some c ->
               existsb (prisma.has_referralCode c) t = false.
Proof.
  intros K.
  assert (R : In (nth k (seeds draws) Sample.user1) (seeds draws))
    by (apply nth_In; cbn; lia).
  split; [now apply seed_email_free|].
  intros c. now apply seed_code_free.
Qed.

Ltac seed_facts :=
  let go k :=
    let E := fresh "E" in let C := fresh "C" in
    destruct (seed_free k ltac:(lia)) as [E C];
    specialize (C _ eq_refl); cbn in E, C in
  go 0%nat; go 1%nat; go 2%nat; go 3%nat; go 4%nat.

Ltac seed_accepts :=
  seed_facts;
  unfold prisma.accepts;
  cbn [row_of seed id email referralCode referredBy in_email in_name
       in_referralCode in_referredBy in_verified];
  rewrite ?existsb_app;
  rewrite ?seed_id_free by lia;
  repeat match goal with
    | H : existsb _ t = false |- _ => rewrite H; clear H
    end;
  cbn;
  rewrite ?String.eqb_refl;
  rewrite ?seed_ids_differ by lia;
  cbn; rewrite ?orb_true_r; reflexivity.

Lemma seed_accepted_0 :
  prisma.accepts (t ++ firstn 0 (seeds draws))
    (nth 0 (seeds draws) Sample.user1) = true.
Proof. cbn [nth seeds firstn]. rewrite app_nil_r. seed_accepts. Qed.

Lemma seed_accepted_1 :
  prisma.accepts (t ++ firstn 1 (seeds draws))
    (nth 1 (seeds draws) Sample.user1) = true.
Proof. cbn [nth seeds firstn]. seed_accepts. Qed.

Lemma seed_accepted_2 :
  prisma.accepts (t ++ firstn 2 (seeds draws))
    (nth 2 (seeds draws) Sample.user1) = true.
Proof. cbn [nth seeds firstn]. seed_accepts. Qed.

Lemma seed_accepted_3 :
  prisma.accepts (t ++ firstn 3 (seeds draws))
    (nth 3 (seeds draws) Sample.user1) = true.
Proof. cbn [nth seeds firstn]. seed_accepts. Qed.

Lemma seed_accepted_4 :
  prisma.accepts (t ++ firstn 4 (seeds draws))
    (nth 4 (seeds draws) Sample.user1) = true.
Proof. cbn [nth seeds firstn]. seed_accepts. Qed.

Hypothesis Consistent : consistent t.

Lemma firstn_succ_nth {A} (l : list A) (k : nat) (d : A) :
  (k < length l)%nat -> firstn (S k) l = (firstn k l ++ [nth k l d])%list.
Proof.
  revert k. induction l as [|x l IH]; intros k K; simpl in K; [lia|].
  destruct k as [|k]; [reflexivity|].
  cbn [firstn nth app]. rewrite <- (IH k) by lia. reflexivity.
Qed.

Lemma seeds_consistent (k : nat) :
  (k <= 5)%nat -> consistent (t ++ firstn k (seeds draws)).
Proof.
  assert (Step : forall k, (k < 5)%nat ->
            prisma.accepts (t ++ firstn k (seeds draws))
              (nth k (seeds draws) Sample.user1) = true).
  { intros j J.
    do 5 (destruct j as [|j];
          [first [ exact seed_accepted_0 | exact seed_accepted_1
                 | exact seed_accepted_2 | exact seed_accepted_3
                 | exact seed_accepted_4 ]|]).
    lia. }
  induction k as [|k IH]; intros K.
  - cbn. now rewrite app_nil_r.
  - rewrite (firstn_succ_nth _ k Sample.user1) by (cbn; lia).
    rewrite app_assoc. apply consistent_insert; [apply IH; lia|].
    apply Step. lia.
Qed.

Lemma find_app_none {A} (p : A -> bool) (l1 l2 : list A) :
  find p l1 = None -> find p (l1 ++ l2) = find p l2.
Proof.
  induction l1 as [|x l1 IH]; simpl; [reflexivity|].
  destruct (p x); [discriminate | exact IH].
Qed.

Lemma seed_id_not_found (k : nat) :
  (k < 5)%nat -> find (prisma.has_id (uuid (draws k))) t = None.
Proof.
  intros K. destruct (find _ t) as [x|] eqn:F; [|reflexivity].
  apply find_some in F as [Hx E].
  pose proof (id_free_by_scan t _ (seed_id_free k K) x Hx) as N.
  apply String.eqb_eq in E. congruence.
Qed.

Lemma filter_none {A} (p : A -> bool) (l : list A) :
  (forall y, In y l -> p y = false) -> List.filter p l = [].
Proof.
  induction l as [|y l IH]; intros P; [reflexivity|].
  simpl. rewrite (P y (or_introl eq_refl)). apply IH.
  intros z Hz. apply P. now right.
Qed.

Lemma seed_not_referred (k : nat) :
  (k < 5)%nat ->
  List.filter (prisma.referred_by (uuid (draws k))) t = [].
Proof.
  intros K. destruct Consistent as (_ & _ & _ & Early).
  apply filter_none. intros y Hy.
  destruct (prisma.referred_by (uuid (draws k)) y) eqn:E; [|reflexivity].
  apply opt_string_eqb_eq in E.
  destruct (referrers_exist _ y _ Early Hy E) as [z [Hz Ez]].
  exfalso. exact (id_free_by_scan _ _ (seed_id_free k K) z Hz Ez).
Qed.

(** X20.  On a table that keeps the constraints and shares no id, email
    or code with the five subscribers of the script, whose drawn ids are
    distinct, the script inserts the five of them, in its order, after the
    rows that were there; the table still keeps the constraints; and the
    report gives the number of all rows of the table, those that were
    there included, two referrals for user1 and one for user2. *)
Theorem seeding_a_fresh_table :
  table (main draws t) = (t ++ seeds draws)%list
  /\ consistent (t ++ seeds draws)
  /\ console (main draws t)
     = [ Log "Starting database initialization...";
         Log "Creating initial test subscribers...";
         Log "Creating referral relationships...";
         Log "Database initialization completed successfully!";
         Total (length t + 5);
         Log (String "010"%char "Referral Relationships:");
         HasReferrals (Some "user1@example.com") (Some 2%nat);
         HasReferrals (Some "user2@example.com") (Some 1%nat) ].
Proof.
  destruct (main_prefix draws t)
    as (k & K & T & _ & _ & Stop & _ & Report).
  assert (k = 5%nat) as ->.
  { destruct (Nat.eq_dec k 5) as [E|N]; [exact E|]. exfalso.
    assert (L : (k < 5)%nat) by lia. specialize (Stop L).
    do 5 (destruct k as [|k];
          [first [ rewrite seed_accepted_0 in Stop
                 | rewrite seed_accepted_1 in Stop
                 | rewrite seed_accepted_2 in Stop
                 | rewrite seed_accepted_3 in Stop
                 | rewrite seed_accepted_4 in Stop ]; discriminate|]).
    lia. }
  split; [exact T|].
  split; [exact (seeds_consistent 5 (le_n 5))|].
  rewrite (Report eq_refl). unfold with_referrals, prisma.referrals_of.
  rewrite !find_app_none by (apply seed_id_not_found; lia).
  rewrite length_app. cbn [length seeds].
  unfold prisma.has_id, prisma.referred_by.
  cbn [find seeds id row_of].
  rewrite !String.eqb_refl, !(seed_ids_differ 0 1) by lia.
  cbn [has_referrals id row_of]. rewrite !List.filter_app.
  fold (prisma.referred_by (uuid (draws 0%nat))).
  fold (prisma.referred_by (uuid (draws 1%nat))).
  rewrite !seed_not_referred by lia.
  unfold prisma.referred_by, seeds.
  cbn [app List.filter referredBy row_of seed in_referredBy
       opt_string_eqb].
  rewrite !String.eqb_refl, !(seed_ids_differ 1 0), !(seed_ids_differ 0 1)
    by lia.
  reflexivity.
Qed.

End SeedingFresh.

(** ** Worked examples for the further properties *)

Lemma after_ann_consistent : consistent (rows Sample.after_ann).
Proof. apply POST_keeps_consistent. exact consistent_nil. Qed.

Lemma seeded_consistent : consistent (rows Sample.seeded).
Proof.
  split; [|split; [|split]].
  - cbn. repeat constructor; cbn; intuition discriminate.
  - cbn. repeat constructor; cbn; intuition discriminate.
  - exact seeded_codes_unique.
  - intros l1 r l2 i E Hi. cbn in E.
    destruct l1 as [|a [|b [|c l1]]]; cbn in E.
    + injection E as <- _. discriminate.
    + injection E as <- <- _. exists Sample.user1. split; [now left|].
      cbn in Hi. now injection Hi as <-.
    + injection E as _ _ E. discriminate.
    + injection E as _ _ E. discriminate.
Qed.

Lemma invalid_body_sends_no_query_witness :
  WaitlistRoute.POST Sample.plausible_email
    (Sample.draw "0.k3j9x2m7qa4" "id-new" 10)
    (Sample.request "not-an-email" None None) Sample.seeded
  = (WaitlistRoute.validation_failed
       [("email", [Message "Please enter a valid email address"])],
     Sample.seeded).
Proof.
  apply (invalid_body_sends_no_query Sample.plausible_email
           (Sample.draw "0.k3j9x2m7qa4" "id-new" 10)
           (Sample.request "not-an-email" None None)
           [("email", [Message "Please enter a valid email address"])]
           Sample.seeded).
  vm_compute. reflexivity.
Defined.

Lemma field_errors_name_failing_fields_witness :
  let fields : gmap string jsval :=
    <["email" := VStr "not-an-email"]> (<["name" := VNum 7]> ∅) in
  let errs := [("email", [Message "Please enter a valid email address"]);
               ("name", [ExpectedString])] in
  errs <> []
  /\ (forall k, In k (map fst errs) <->
        (k = "email"
         /\ ~ exists s, fields !! "email" = Some (VStr s)
                        /\ Sample.plausible_email s = true)
        \/ (k = "name" /\ ~ string_or_absent (fields !! "name"))
        \/ (k = "referralCode"
            /\ ~ string_or_absent (fields !! "referralCode"))).
Proof.
  apply (field_errors_name_failing_fields Sample.plausible_email
           (JObject (<["email" := VStr "not-an-email"]>
                       (<["name" := VNum 7]> ∅)))
           [("email", [Message "Please enter a valid email address"]);
            ("name", [ExpectedString])]).
  vm_compute. reflexivity.
Defined.

Lemma blank_referral_code_is_no_code_witness :
  let e := Sample.draw "0.k3j9x2m7qa4" "id-new" 10 in
  let fields : gmap string jsval :=
    <["email" := VStr "new@example.com"]>
      (<["referralCode" := VStr ""]> ∅) in
  WaitlistRoute.POST Sample.plausible_email e (JObject fields) Sample.seeded
  = WaitlistRoute.POST Sample.plausible_email e
      (JObject (delete "referralCode" fields)) Sample.seeded
  /\ exists qs,
       queries (snd (WaitlistRoute.POST Sample.plausible_email e
                       (JObject fields) Sample.seeded))
       = (queries Sample.seeded ++ qs)%list
       /\ forall c, ~ In (FindUniqueByReferralCode c) qs.
Proof.
  apply (blank_referral_code_is_no_code Sample.plausible_email
           (Sample.draw "0.k3j9x2m7qa4" "id-new" 10)
           (<["email" := VStr "new@example.com"]>
              (<["referralCode" := VStr ""]> ∅))
           Sample.seeded).
  vm_compute. reflexivity.
Defined.

Lemma signups_keep_table_consistent_witness :
  consistent
    (rows (signups Sample.plausible_email
             [(Sample.draw "0.k3j9x2m7qa4" "id-ann" 10,
               Sample.request "ann@example.com" (Some "Ann") None);
              (Sample.draw "0.z8y7x6w5v4u" "id-bob" 20,
               Sample.request "bob@example.com" (Some "Bob")
                 (Some "K3J9X2M7"))]
             Sample.empty)).
Proof.
  apply (signups_keep_table_consistent Sample.plausible_email).
  exact consistent_nil.
Defined.

Lemma second_signup_is_duplicate_witness :
  let e1 := Sample.draw "0.k3j9x2m7qa4" "id-ann" 10 in
  let e2 := Sample.draw "0.z8y7x6w5v4u" "id-two" 20 in
  let r1 := Sample.request "ann@example.com" (Some "Ann") None in
  let r2 := Sample.request "ann@example.com" (Some "Anna") (Some "X") in
  fst (WaitlistRoute.POST Sample.plausible_email e2 r2
         (snd (WaitlistRoute.POST Sample.plausible_email e1 r1 Sample.empty)))
  = WaitlistRoute.duplicate_email
  /\ rows (snd (WaitlistRoute.POST Sample.plausible_email e2 r2
                  (snd (WaitlistRoute.POST Sample.plausible_email e1 r1
                          Sample.empty))))
     = rows (snd (WaitlistRoute.POST Sample.plausible_email e1 r1
                    Sample.empty)).
Proof.
  apply (second_signup_is_duplicate Sample.plausible_email
           (Sample.draw "0.k3j9x2m7qa4" "id-ann" 10)
           (Sample.draw "0.z8y7x6w5v4u" "id-two" 20)
           (Sample.request "ann@example.com" (Some "Ann") None)
           (Sample.request "ann@example.com" (Some "Anna") (Some "X"))
           (Sample.parsed "ann@example.com" (Some "Ann") None)
           (Sample.parsed "ann@example.com" (Some "Anna") (Some "X"))
           Sample.empty).
  - vm_compute. reflexivity.
  - vm_compute. reflexivity.
  - reflexivity.
  - vm_compute. reflexivity.
Defined.

Lemma count_follows_signup_witness :
  let e := Sample.draw "0.k3j9x2m7qa4" "id-ann" 10 in
  let request := Sample.request "ann@example.com" (Some "Ann") None in
  2%nat = length (rows Sample.seeded)
  /\ 3%nat
     = (2 + if success (fst (WaitlistRoute.POST Sample.plausible_email e
                               request Sample.seeded))
            then 1 else 0)%nat.
Proof.
  apply (count_follows_signup Sample.plausible_email
           (Sample.draw "0.k3j9x2m7qa4" "id-ann" 10)
           (Sample.request "ann@example.com" (Some "Ann") None)
           Sample.seeded 2 3).
  - reflexivity.
  - vm_compute. reflexivity.
Defined.

Lemma returned_code_has_empty_stats_witness :
  let e := Sample.draw "0.k3j9x2m7qa4" "id-ann" 10 in
  let request := Sample.request "ann@example.com" (Some "Ann") None in
  payload (fst (WaitlistRoute.POST Sample.plausible_email e request
                  Sample.empty))
  = ReferralCode (Some (WaitlistRoute.generateUniqueCode e))
  /\ fst (ReferralsRoute.GET (Some (WaitlistRoute.generateUniqueCode e))
            (snd (WaitlistRoute.POST Sample.plausible_email e request
                    Sample.empty)))
     = ReferralsRoute.stats [].
Proof.
  apply (returned_code_has_empty_stats Sample.plausible_email
           (Sample.draw "0.k3j9x2m7qa4" "id-ann" 10)
           (Sample.request "ann@example.com" (Some "Ann") None)
           (Sample.parsed "ann@example.com" (Some "Ann") None)
           Sample.empty).
  - vm_compute. reflexivity.
  - exact consistent_nil.
  - vm_compute. reflexivity.
  - vm_compute. lia.
Defined.

Lemma other_stats_unchanged_witness :
  let e := Sample.draw "0.z8y7x6w5v4u" "id-bob" 20 in
  let request :=
    Sample.request "bob@example.com" (Some "Bob") (Some "REFERRED1") in
  fst (ReferralsRoute.GET (Some "USER1CODE")
         (snd (WaitlistRoute.POST Sample.plausible_email e request
                 Sample.seeded)))
  = fst (ReferralsRoute.GET (Some "USER1CODE") Sample.seeded).
Proof.
  apply (other_stats_unchanged Sample.plausible_email
           (Sample.draw "0.z8y7x6w5v4u" "id-bob" 20)
           (Sample.request "bob@example.com" (Some "Bob") (Some "REFERRED1"))
           (Sample.parsed "bob@example.com" (Some "Bob") (Some "REFERRED1"))
           "USER1CODE" Sample.user1 Sample.seeded).
  - vm_compute. reflexivity.
  - exact seeded_consistent.
  - simpl. now left.
  - reflexivity.
  - discriminate.
Defined.

Lemma form_values_pass_the_route_witness :
  let fields : gmap string jsval :=
    <["email" := VStr "ann@example.com"]>
      (<["name" := VStr "Ann"]> (<["referralCode" := VStr ""]> ∅)) in
  let data := Sample.parsed "ann@example.com" (Some "Ann") (Some "") in
  WaitlistRoute.waitlistSchema Sample.plausible_email fields
  = ParseSuccess data
  /\ forall e d errs,
       fst (WaitlistRoute.POST Sample.plausible_email e (JObject fields) d)
       <> WaitlistRoute.validation_failed errs.
Proof.
  apply (form_values_pass_the_route Sample.plausible_email
           (<["email" := VStr "ann@example.com"]>
              (<["name" := VStr "Ann"]> (<["referralCode" := VStr ""]> ∅)))
           (Sample.parsed "ann@example.com" (Some "Ann") (Some ""))).
  vm_compute. reflexivity.
Defined.

Lemma second_form_signup_has_no_referrer_witness :
  let data :=
    {| WaitlistFormTsx.form_name := "Ann";
       WaitlistFormTsx.form_email := "ann@example.com" |} in
  let e := Sample.draw "0.k3j9x2m7qa4" "id-ann" 10 in
  let parsed := Sample.parsed "ann@example.com" (Some "Ann") None in
  let run := WaitlistRoute.POST Sample.plausible_email e
               (WaitlistFormTsx.body data) Sample.seeded in
  WaitlistFormTsx.form_name data <> ""
  /\ WaitlistRoute.safeParse Sample.plausible_email
       (WaitlistFormTsx.body data) = ParseSuccess parsed
  /\ (exists qs, queries (snd run) = (queries Sample.seeded ++ qs)%list
                 /\ forall c, ~ In (FindUniqueByReferralCode c) qs)
  /\ (rows (snd run) = rows Sample.seeded
      \/ rows (snd run)
         = (rows Sample.seeded ++ [new_row e parsed None])%list).
Proof.
  apply (second_form_signup_has_no_referrer Sample.plausible_email
           (<["name" := VStr "Ann"]>
              (<["email" := VStr "ann@example.com"]> ∅))
           {| WaitlistFormTsx.form_name := "Ann";
              WaitlistFormTsx.form_email := "ann@example.com" |}
           (Sample.draw "0.k3j9x2m7qa4" "id-ann" 10) Sample.seeded).
  vm_compute. reflexivity.
Defined.

Lemma seeding_a_fresh_table_witness :
  let draws := fun k => Sample.draw "" (String (ascii_of_nat (65 + k)) "") 1 in
  let t := rows Sample.after_ann in
  InitDb.table (InitDb.main draws t) = (t ++ InitDb.seeds draws)%list
  /\ consistent (t ++ InitDb.seeds draws)
  /\ InitDb.console (InitDb.main draws t)
     = [ InitDb.Log "Starting database initialization...";
         InitDb.Log "Creating initial test subscribers...";
         InitDb.Log "Creating referral relationships...";
         InitDb.Log "Database initialization completed successfully!";
         InitDb.Total (length t + 5);
         InitDb.Log (String "010"%char "Referral Relationships:");
         InitDb.HasReferrals (Some "user1@example.com") (Some 2%nat);
         InitDb.HasReferrals (Some "user2@example.com") (Some 1%nat) ].
Proof.
  apply (seeding_a_fresh_table
           (fun k => Sample.draw "" (String (ascii_of_nat (65 + k)) "") 1)
           (rows Sample.after_ann)).
  - intros r x Hr Hx. rewrite after_ann_rows in Hx.
    destruct Hx as [<-|[]].
    cbn in Hr.
    repeat (destruct Hr as [<-|Hr]; [cbn; repeat split; discriminate|]).
    destruct Hr.
  - cbn. repeat constructor; cbn; intuition discriminate.
  - exact after_ann_consistent.
Defined.

(** ** Queries and collisions of a signup *)

Section SignupQueries.

Import WaitlistRoute.

Variable isEmail : string -> bool.

(** X21.  A signup sends at most three queries, and always in the same
    order: the lookup of the email comes first and only there, the lookup
    of a referral code only second, and the insert only last, for the
    email that was looked up first; a signup never counts the rows. *)
Theorem signup_sends_at_most_three_queries (e : env) (request : json_body)
    (d : db) :
  exists qs,
    queries (snd (POST isEmail e request d)) = (queries d ++ qs)%list
    /\ (length qs <= 3)%nat
    /\ ~ In CountSubscribers qs
    /\ (forall i em,
          nth_error qs i = Some (FindUniqueByEmail em) -> i = 0%nat)
    /\ (forall i c,
          nth_error qs i = Some (FindUniqueByReferralCode c) -> i = 1%nat)
    /\ (forall i em,
          nth_error qs i = Some (CreateSubscriber em) ->
          S i = length qs
          /\ nth_error qs 0 = Some (FindUniqueByEmail em)).
Proof.
  destruct (POST_query_order isEmail e request d) as [qs [Q H]].
  exists qs. split; [exact Q|].
  destruct H as [->|[em [->|[[c ->]|[->|[c ->]]]]]]; cbn;
    (split; [lia|]); (split; [intuition discriminate|]);
    (split; [|split]); intros [|[|[|i]]] x Hx; cbn in Hx;
    try discriminate; try reflexivity;
    try (injection Hx as <-; now split);
    try (destruct i; discriminate).
Qed.

(** X22.  There is no retry.  When the code generated for a valid signup,
    with an email that is not in the table and a referral code that is
    blank or known, is already the code of a row, the insert is refused:
    the answer is the server error, status 500, and no row is created. *)
Theorem code_collision_is_server_error (e : env) (request : json_body)
    (data : WaitlistData) (d : db) :
  safeParse isEmail request = ParseSuccess data ->
  ~ on_waitlist (rows d) (data_email data) ->
  (Js.truthy (data_referralCode data) = true ->
   code_known (rows d) (Js.narrowed (data_referralCode data))) ->
  code_known (rows d) (generateUniqueCode e) ->
  fst (POST isEmail e request d) = server_error
  /\ status (fst (POST isEmail e request d)) = 500
  /\ rows (snd (POST isEmail e request d)) = rows d.
Proof.
  intros V F Hc [x [Hx Cx]].
  assert (A : forall ref, prisma.accepts (rows d) (new_row e data ref) = false).
  { intros ref. unfold prisma.accepts. cbn [referralCode new_row].
    assert (X : existsb (prisma.has_referralCode (generateUniqueCode e))
                  (rows d) = true).
    { apply existsb_exists. exists x. split; [exact Hx|].
      now apply opt_string_eqb_eq. }
    rewrite X. cbn. now rewrite andb_false_r. }
  rewrite (POST_steps isEmail e request data d V).
  rewrite (off_waitlist_not_found _ _ F). cbn zeta.
  destruct (Js.truthy (data_referralCode data)) eqn:T.
  - destruct (Hc eq_refl) as [r [Hr Cr]].
    destruct (find (prisma.has_referralCode _) (rows d)) as [r'|] eqn:Fr.
    + unfold try_catch. rewrite insert_run, A. cbn. now repeat split.
    + exfalso. pose proof (find_none _ _ Fr r Hr) as N.
      unfold prisma.has_referralCode in N. rewrite Cr in N. cbn in N.
      now rewrite String.eqb_refl in N.
  - unfold try_catch. rewrite insert_run, A. cbn. now repeat split.
Qed.

End SignupQueries.

Lemma code_collision_is_server_error_witness :
  let e := Sample.draw "0.k3j9x2m7zz1" "id-bob" 20 in
  let request := Sample.request "bob@example.com" (Some "Bob") None in
  fst (WaitlistRoute.POST Sample.plausible_email e request Sample.after_ann)
  = WaitlistRoute.server_error
  /\ status (fst (WaitlistRoute.POST Sample.plausible_email e request
                    Sample.after_ann)) = 500
  /\ rows (snd (WaitlistRoute.POST Sample.plausible_email e request
                  Sample.after_ann))
     = rows Sample.after_ann.
Proof.
  apply (code_collision_is_server_error Sample.plausible_email
           (Sample.draw "0.k3j9x2m7zz1" "id-bob" 20)
           (Sample.request "bob@example.com" (Some "Bob") None)
           (Sample.parsed "bob@example.com" (Some "Bob") None)
           Sample.after_ann).
  - vm_compute. reflexivity.
  - apply off_waitlist_by_scan. reflexivity.
  - discriminate.
  - eexists. split; [left; reflexivity | vm_compute; reflexivity].
Defined.
